(** * stock-bot: the SSE universe fetch pipeline

    A shallow embedding of the fetch pipeline of the repository
    (transport client, pagination engine, normaliser, snapshot writer and
    manifest builder) together with the properties proved about it.

    Conventions of the embedding.
    - A Python [dict[str, Any]] coming out of [json.loads] is a finite map
      [gmap string pyval]; [pyval] is the type of decoded JSON values.
      Integers are [Z]; finite floats (JSON numbers with a fraction,
      configuration values, clock readings) are rationals [Q]; the
      non-finite floats are not represented.
    - Field names and field values are only ever compared for equality or
      emptiness and are kept as [string]s.  HTTP response bodies are
      sliced, stripped and matched character by character, so they are
      sequences of Unicode code points ([text]).
    - Dictionaries whose iteration order is observable (headers, cookies)
      are association lists.
    - Code that can raise returns a [result]; the exceptions caught by the
      source are the constructors of [exn]. *)

From Stdlib Require Import QArith Qminmax.
From stdpp Require Import gmap strings list fin_maps pretty sorting.

Close Scope Q_scope.
Open Scope string_scope.
Set Warnings "-register-all".

(** ** Python values *)

Inductive pyval : Type :=
  | PyNone
  | PyBool (b : bool)
  | PyInt (n : Z)
  | PyFloat (q : Q)
  | PyStr (s : string)
  | PyList (items : list pyval)
  | PyDict (items : list (string * pyval)).

(** Unicode code points and text built from them. *)
Definition codepoint : Type := N.
Definition text : Type := list codepoint.

Definition text_of_string (s : string) : text :=
  map Ascii.N_of_ascii (String.list_ascii_of_string s).

(** An instant ([datetime]), as seconds since the epoch. *)
Definition datetime : Type := Z.

(** Exceptions that the pipeline raises or catches. *)
Inductive exn : Type :=
  | SseApiError (message : string) (response_text : option text)
  | ValueError (message : string)
  | TypeError (message : string)
  | ValidationError (fields : list string)
  | TimeoutException
  | NetworkError
  | HTTPStatusError (status : nat)
  | OtherException (message : string).

Inductive result (A : Type) : Type :=
  | Ok (a : A)
  | Raise (e : exn).
Arguments Ok {A} a.
Arguments Raise {A} e.

(** [str(e)] for the exceptions whose text the pipeline records. *)
Definition exn_message (e : exn) : string :=
  match e with
  | SseApiError m _ | ValueError m | TypeError m | OtherException m => m
  | TimeoutException => "timed out"
  | NetworkError => "network error"
  | HTTPStatusError status => "HTTP status " ++ pretty status
  | ValidationError fields =>
      "validation error for RawSseRecord: " ++ String.concat ", " fields
  end.

(** Truthiness of a value, as used by [if x], [x and y], [x or y]. *)
Definition truthy (v : pyval) : bool :=
  match v with
  | PyNone => false
  | PyBool b => b
  | PyInt n => negb (Z.eqb n 0)
  | PyFloat q => negb (Qeq_bool q 0)
  | PyStr s => negb (String.eqb s "")
  | PyList items => match items with [] => false | _ => true end
  | PyDict items => match items with [] => false | _ => true end
  end.

(** [d.get(k)]: the value under [k], or [None]. *)
Definition dict_get (d : gmap string pyval) (k : string) : pyval :=
  default PyNone (d !! k).

(** [a or b]. *)
Definition py_or (a b : pyval) : pyval := if truthy a then a else b.

(** [x is not None]. *)
Definition is_not_none (v : pyval) : bool :=
  match v with PyNone => false | _ => true end.

(** Truthiness of an optional string ([str | None]). *)
Definition str_truthy (o : option string) : bool :=
  match o with
  | Some s => negb (String.eqb s "")
  | None => false
  end.

(** The library functions that are taken as given:
    - [int_of_str s]: [int(s)] on a string, [None] when it raises
      [ValueError];
    - [json_loads t]: [json.loads(t)], the decoded value or the text of the
      [JSONDecodeError];
    - [re_word c]: whether [c] is in the class [\w] of [re];
    - [isoformat d]: the JSON rendering of a [datetime];
    - [py_str v]: [str(v)] of a decoded value. *)
Class PyBuiltins := {
  int_of_str : string -> option Z;
  json_loads : text -> pyval + string;
  re_word : codepoint -> bool;
  isoformat : datetime -> string;
  py_str : pyval -> text
}.

(** [int(v)]; [None] stands for the [ValueError] or [TypeError] it raises.
    A float is truncated towards zero. *)
Definition py_int `{PyBuiltins} (v : pyval) : option Z :=
  match v with
  | PyInt n => Some n
  | PyBool b => Some (if b then 1 else 0)%Z
  | PyFloat q => Some (Z.quot (Qnum q) (Z.pos (Qden q)))
  | PyStr s => int_of_str s
  | PyNone | PyList _ | PyDict _ => None
  end.

(** ** models/stock.py *)

Module Stock.

(** [RawSseRecord]: every declared field is [str | None] with default
    [None]; [extra = "allow"] keeps the undeclared fields. *)
Record RawSseRecord : Type := {
  A_STOCK_CODE : option string;
  B_STOCK_CODE : option string;
  COMPANY_CODE : option string;
  SEC_NAME_CN : option string;
  SEC_NAME_FULL : option string;
  COMPANY_ABBR : option string;
  FULL_NAME : option string;
  FULL_NAME_IN_ENGLISH : option string;
  COMPANY_ABBR_EN : option string;
  STOCK_TYPE : option string;
  LIST_BOARD : option string;
  LIST_DATE : option string;
  DELIST_DATE : option string;
  CSRC_CODE : option string;
  CSRC_CODE_DESC : option string;
  AREA_NAME : option string;
  AREA_NAME_DESC : option string;
  STATE_CODE : option string;
  STATE_CODE_STOCK : option string;
  PRODUCT_STATUS : option string;
  NUM : option string;
  extra : gmap string pyval
}.

Definition declared_fields : list string :=
  [ "A_STOCK_CODE"; "B_STOCK_CODE"; "COMPANY_CODE"; "SEC_NAME_CN";
    "SEC_NAME_FULL"; "COMPANY_ABBR"; "FULL_NAME"; "FULL_NAME_IN_ENGLISH";
    "COMPANY_ABBR_EN"; "STOCK_TYPE"; "LIST_BOARD"; "LIST_DATE";
    "DELIST_DATE"; "CSRC_CODE"; "CSRC_CODE_DESC"; "AREA_NAME";
    "AREA_NAME_DESC"; "STATE_CODE"; "STATE_CODE_STOCK"; "PRODUCT_STATUS";
    "NUM" ].

(** Validation of one [str | None] field: absent and [None] give [None],
    a string is kept, anything else is a validation error. *)
Definition str_or_none (d : gmap string pyval) (k : string)
  : option (option string) :=
  match d !! k with
  | None => Some None
  | Some PyNone => Some None
  | Some (PyStr s) => Some (Some s)
  | Some _ => None
  end.

Definition field_ok (d : gmap string pyval) (k : string) : bool :=
  match str_or_none d k with Some _ => true | None => false end.

Definition field_of (d : gmap string pyval) (k : string) : option string :=
  match str_or_none d k with Some o => o | None => None end.

Definition is_declared (k : string) : bool :=
  bool_decide (k ∈ declared_fields).

(** [RawSseRecord.model_validate(raw_data)]. *)
Definition model_validate (d : gmap string pyval) : result RawSseRecord :=
  match List.filter (fun k => negb (field_ok d k)) declared_fields with
  | [] =>
      Ok {| A_STOCK_CODE := field_of d "A_STOCK_CODE";
            B_STOCK_CODE := field_of d "B_STOCK_CODE";
            COMPANY_CODE := field_of d "COMPANY_CODE";
            SEC_NAME_CN := field_of d "SEC_NAME_CN";
            SEC_NAME_FULL := field_of d "SEC_NAME_FULL";
            COMPANY_ABBR := field_of d "COMPANY_ABBR";
            FULL_NAME := field_of d "FULL_NAME";
            FULL_NAME_IN_ENGLISH := field_of d "FULL_NAME_IN_ENGLISH";
            COMPANY_ABBR_EN := field_of d "COMPANY_ABBR_EN";
            STOCK_TYPE := field_of d "STOCK_TYPE";
            LIST_BOARD := field_of d "LIST_BOARD";
            LIST_DATE := field_of d "LIST_DATE";
            DELIST_DATE := field_of d "DELIST_DATE";
            CSRC_CODE := field_of d "CSRC_CODE";
            CSRC_CODE_DESC := field_of d "CSRC_CODE_DESC";
            AREA_NAME := field_of d "AREA_NAME";
            AREA_NAME_DESC := field_of d "AREA_NAME_DESC";
            STATE_CODE := field_of d "STATE_CODE";
            STATE_CODE_STOCK := field_of d "STATE_CODE_STOCK";
            PRODUCT_STATUS := field_of d "PRODUCT_STATUS";
            NUM := field_of d "NUM";
            extra := filter (fun kv => is_declared kv.1 = false) d |}
  | bad => Raise (ValidationError bad)
  end.

Definition opt_val (o : option string) : pyval :=
  match o with Some s => PyStr s | None => PyNone end.

(** [raw.model_dump()]: the declared fields, then the extra ones. *)
Definition model_dump (r : RawSseRecord) : gmap string pyval :=
  list_to_map
    [ ("A_STOCK_CODE", opt_val (A_STOCK_CODE r));
      ("B_STOCK_CODE", opt_val (B_STOCK_CODE r));
      ("COMPANY_CODE", opt_val (COMPANY_CODE r));
      ("SEC_NAME_CN", opt_val (SEC_NAME_CN r));
      ("SEC_NAME_FULL", opt_val (SEC_NAME_FULL r));
      ("COMPANY_ABBR", opt_val (COMPANY_ABBR r));
      ("FULL_NAME", opt_val (FULL_NAME r));
      ("FULL_NAME_IN_ENGLISH", opt_val (FULL_NAME_IN_ENGLISH r));
      ("COMPANY_ABBR_EN", opt_val (COMPANY_ABBR_EN r));
      ("STOCK_TYPE", opt_val (STOCK_TYPE r));
      ("LIST_BOARD", opt_val (LIST_BOARD r));
      ("LIST_DATE", opt_val (LIST_DATE r));
      ("DELIST_DATE", opt_val (DELIST_DATE r));
      ("CSRC_CODE", opt_val (CSRC_CODE r));
      ("CSRC_CODE_DESC", opt_val (CSRC_CODE_DESC r));
      ("AREA_NAME", opt_val (AREA_NAME r));
      ("AREA_NAME_DESC", opt_val (AREA_NAME_DESC r));
      ("STATE_CODE", opt_val (STATE_CODE r));
      ("STATE_CODE_STOCK", opt_val (STATE_CODE_STOCK r));
      ("PRODUCT_STATUS", opt_val (PRODUCT_STATUS r));
      ("NUM", opt_val (NUM r)) ]
  ∪ extra r.

(** [StockRecord], the unified schema. *)
Record StockRecord : Type := {
  exchange : string;
  symbol : string;
  name : string;
  full_name : option string;
  category : string;
  list_date : option string;
  csrc_code : option string;
  csrc_desc : option string;
  province : option string;
  status : option string;
  source_url : string;
  asof : datetime;
  raw : option (gmap string pyval)
}.

End Stock.

(** ** normalizers/sse.py *)

Module Normalizer.
Import Stock.

(** [STOCK_TYPE_MAP]. *)
Definition STOCK_TYPE_MAP : gmap string string :=
  list_to_map [ ("1", "主板A股"); ("2", "主板B股"); ("8", "科创板") ].

(** [not symbol or symbol == "-"]. *)
Definition unusable (symbol : option string) : bool :=
  negb (str_truthy symbol) || bool_decide (symbol = Some "-").

(** [normalize_sse_record]; the text of the [ValueError] is kept without
    the rendering of the record that the source appends to it. *)
Definition normalize_sse_record (raw : RawSseRecord) (source_url : string)
    (asof : datetime) (stock_type : string) (include_raw : bool)
  : result StockRecord :=
  let symbol := A_STOCK_CODE raw in
  let symbol := if unusable symbol then B_STOCK_CODE raw else symbol in
  let symbol := if unusable symbol then COMPANY_CODE raw else symbol in
  if unusable symbol then
    Raise (ValueError "Cannot extract symbol from record")
  else
    let name := SEC_NAME_CN raw in
    let name := if negb (str_truthy name) then COMPANY_ABBR raw else name in
    let name := if negb (str_truthy name) then SEC_NAME_FULL raw else name in
    let name := if negb (str_truthy name) then symbol else name in
    let full_name :=
      if str_truthy (FULL_NAME raw) then FULL_NAME raw
      else SEC_NAME_FULL raw in
    let category := "STOCK_TYPE_" ++ stock_type in
    let category :=
      match STOCK_TYPE_MAP !! stock_type with
      | Some label => category ++ "_" ++ label
      | None => category
      end in
    Ok {| exchange := "Shanghai_Stocks";
          symbol := default "" symbol;
          name := default "" name;
          full_name := full_name;
          category := category;
          list_date := LIST_DATE raw;
          csrc_code := CSRC_CODE raw;
          csrc_desc := CSRC_CODE_DESC raw;
          province := AREA_NAME_DESC raw;
          status := STATE_CODE_STOCK raw;
          source_url := source_url;
          asof := asof;
          raw := if include_raw then Some (model_dump raw) else None |}.

(** The selection rules in the words of the specification: the first
    candidate, in order, that holds a value accepted by [good]. *)
Fixpoint first_candidate (good : string -> bool) (cands : list (option string))
  : option string :=
  match cands with
  | [] => None
  | Some s :: rest => if good s then Some s else first_candidate good rest
  | None :: rest => first_candidate good rest
  end.

Definition non_empty (s : string) : bool := negb (String.eqb s "").
Definition usable_code (s : string) : bool :=
  non_empty s && negb (String.eqb s "-").

Definition spec_symbol (raw : RawSseRecord) : option string :=
  first_candidate usable_code
    [A_STOCK_CODE raw; B_STOCK_CODE raw; COMPANY_CODE raw].

Definition spec_name (raw : RawSseRecord) (symbol : string) : string :=
  default symbol
    (first_candidate non_empty
       [SEC_NAME_CN raw; COMPANY_ABBR raw; SEC_NAME_FULL raw]).

End Normalizer.

(** ** models/config.py *)

Module Config.

Record PaginationConfig : Type := {
  page_size : Z;
  cache_size : Z
}.

Record RateLimitConfig : Type := {
  requests_per_second : Q;
  page_delay : Q
}.

Record RetryConfig : Type := {
  max_attempts : nat;
  backoff_multiplier : Q;
  initial_delay : Q
}.

Record JsonpConfig : Type := {
  param_name : string;
  callback_prefix : string
}.

Record SseConfig : Type := {
  endpoint : string;
  query : gmap string string;
  filters : gmap string string;
  pagination : PaginationConfig;
  jsonp : JsonpConfig;
  headers : list (string * string);
  cookies : list (string * string);
  rate_limit : RateLimitConfig;
  retry : RetryConfig;
  timeout : Q
}.

(** The field defaults. *)
Definition default_pagination : PaginationConfig :=
  {| page_size := 25; cache_size := 1 |}.
Definition default_rate_limit : RateLimitConfig :=
  {| requests_per_second := 2; page_delay := 1 # 2 |}.
Definition default_retry : RetryConfig :=
  {| max_attempts := 3; backoff_multiplier := 2; initial_delay := 1 |}.
Definition default_jsonp : JsonpConfig :=
  {| param_name := "jsonCallBack"; callback_prefix := "jsonpCallback" |}.

Definition default_config : SseConfig :=
  {| endpoint := "https://query.sse.com.cn/sseQuery/commonQuery.do";
     query := list_to_map
       [ ("sqlId", "COMMON_SSE_CP_GPJCTPZ_GPLB_GP_L");
         ("type", "inParams");
         ("isPagination", "true") ];
     filters := list_to_map
       [ ("STOCK_TYPE", "1"); ("REG_PROVINCE", ""); ("CSRC_CODE", "");
         ("STOCK_CODE", ""); ("COMPANY_STATUS", "2,4,5,7,8") ];
     pagination := default_pagination;
     jsonp := default_jsonp;
     headers := [];
     cookies := [];
     rate_limit := default_rate_limit;
     retry := default_retry;
     timeout := 30 |}.

(** [build_cookie_header]. *)
Definition build_cookie_header (cfg : SseConfig) : string :=
  String.concat "; " (map (fun kv => kv.1 ++ "=" ++ kv.2) (cookies cfg)).

(** [k.lower()] on the letters of a header name. *)
Definition lower_char (c : Ascii.ascii) : Ascii.ascii :=
  let n := Ascii.nat_of_ascii c in
  if (65 <=? n)%nat && (n <=? 90)%nat then Ascii.ascii_of_nat (n + 32) else c.

Fixpoint lower (s : string) : string :=
  match s with
  | EmptyString => EmptyString
  | String c rest => String (lower_char c) (lower rest)
  end.

(** [get_safe_headers]: the headers without any [Cookie] entry. *)
Definition get_safe_headers (cfg : SseConfig) : list (string * string) :=
  List.filter (fun kv => negb (String.eqb (lower kv.1) "cookie")) (headers cfg).

End Config.

(** ** fetchers/sse/client.py *)

Module Client.
Import Config.

(** *** Text primitives used by [_parse_jsonp] *)

(** The characters for which [str.isspace] holds; [str.strip] and the
    class [\s] of [re] use the same set. *)
Definition is_space (c : codepoint) : bool :=
  ((9 <=? c) && (c <=? 13) || (28 <=? c) && (c <=? 32)
   || (c =? 133) || (c =? 160) || (c =? 5760)
   || (8192 <=? c) && (c <=? 8202)
   || (c =? 8232) || (c =? 8233) || (c =? 8239) || (c =? 8287)
   || (c =? 12288))%N.

Fixpoint drop_while (p : codepoint -> bool) (t : text) : text :=
  match t with
  | [] => []
  | c :: rest => if p c then drop_while p rest else t
  end.

Definition lstrip (t : text) : text := drop_while is_space t.
Definition rstrip (t : text) : text := reverse (drop_while is_space (reverse t)).
Definition strip (t : text) : text := rstrip (lstrip t).

(** [t.startswith(p)]; when it holds, [drop (length p) t] is the rest. *)
Fixpoint starts_with (p t : text) : bool :=
  match p, t with
  | [], _ => true
  | a :: p', b :: t' => (a =? b)%N && starts_with p' t'
  | _ :: _, [] => false
  end.

(** [p in t]. *)
Fixpoint contains (p t : text) : bool :=
  starts_with p t ||
  match t with
  | [] => false
  | _ :: rest => contains p rest
  end.

Definition SYSTEM_ERROR : text := text_of_string "System Error".
(** The server-busy marker, U+7CFB U+7EDF U+7E41 U+5FD9. *)
Definition SYSTEM_BUSY : text := [31995; 32479; 32321; 24537]%N.

Definition LPAREN : codepoint := 40%N.
Definition RPAREN : codepoint := 41%N.
Definition SEMICOLON : codepoint := 59%N.

(** *** The two patterns

    Both patterns are anchored at both ends and read, under [re.DOTALL]:
    the name, spaces, an opening parenthesis, spaces, a greedy group of
    any characters, spaces, a closing parenthesis, an optional semicolon,
    spaces.  After the name the greedy spaces take every space and the
    next character has to be the parenthesis.  The greedy group then
    takes everything up to the last closing parenthesis that is followed
    only by an optional semicolon and spaces. *)

(** The part of the pattern after the opening parenthesis; the result is
    group 1. *)
Definition match_arguments (t : text) : option text :=
  match reverse (rstrip (lstrip t)) with
  | c :: inner =>
      if (c =? RPAREN)%N then Some (reverse inner)
      else if (c =? SEMICOLON)%N then
        match inner with
        | c' :: inner' =>
            if (c' =? RPAREN)%N then Some (reverse inner') else None
        | [] => None
        end
      else None
  | [] => None
  end.

(** The part of the pattern after the name. *)
Definition match_call (t : text) : option text :=
  match lstrip t with
  | c :: rest => if (c =? LPAREN)%N then match_arguments rest else None
  | [] => None
  end.

(** [re.match] of the exact pattern, whose name is
    [re.escape(callback_name)]: group 1 of the match, if any. *)
Definition match_exact (callback_name t : text) : option text :=
  if starts_with callback_name t
  then match_call (drop (length callback_name) t)
  else None.

(** [re.match] of the lenient pattern, whose name is one or more word
    characters. *)
Definition match_lenient `{PyBuiltins} (t : text) : option text :=
  match t with
  | c :: _ => if re_word c then match_call (drop_while re_word t) else None
  | [] => None
  end.

(** [_parse_jsonp]. *)
Definition _parse_jsonp `{PyBuiltins} (body callback_name : text)
  : result pyval :=
  let body := strip body in
  if contains SYSTEM_ERROR body || contains SYSTEM_BUSY body then
    Raise (SseApiError "SSE API returned System Error" (Some (take 500 body)))
  else if starts_with (text_of_string "<!") body
          || starts_with (text_of_string "<html") body then
    Raise (SseApiError "SSE API returned HTML error page"
             (Some (take 500 body)))
  else
    let m := match_exact callback_name body in
    let m := match m with
             | Some _ => m
             | None => match_lenient body
             end in
    match m with
    | None =>
        Raise (SseApiError "Failed to parse JSONP response"
                 (Some (take 500 body)))
    | Some json_str =>
        match json_loads json_str with
        | inl data => Ok data
        | inr e =>
            Raise (SseApiError ("Failed to parse JSON: " ++ e)
                     (Some (take 500 json_str)))
        end
    end.

(** *** [_make_request]: rate limit and retry *)

(** What the client does to the outside, in order. *)
Inductive Effect : Type :=
  | Sent (attempt_number : nat)
  | RateLimitSleep (seconds : Q)
  | BackoffSleep (seconds : Q).

(** What one call of [_do_request] meets: the two clock readings and the
    outcome of [client.get] followed by [raise_for_status]. *)
Record Attempt : Type := {
  clock_before : Q;
  clock_sent : Q;
  outcome : result text
}.

(** [_rate_limit]. *)
Definition _rate_limit (cfg : SseConfig) (_last_request_time now : Q)
  : list Effect :=
  let rps := requests_per_second (rate_limit cfg) in
  if Qle_bool rps 0 then []
  else
    let min_interval := (1 / rps)%Q in
    let elapsed := (now - _last_request_time)%Q in
    if Qle_bool min_interval elapsed then []
    else [RateLimitSleep (min_interval - elapsed)%Q].

(** [_do_request]: the new [_last_request_time], the effects, the outcome. *)
Definition _do_request (cfg : SseConfig) (attempt_number : nat) (a : Attempt)
    (_last_request_time : Q) : Q * list Effect * result text :=
  (clock_sent a,
   (_rate_limit cfg _last_request_time (clock_before a)
      ++ [Sent attempt_number])%list,
   outcome a).

(** [retry_if_exception_type((httpx.TimeoutException, httpx.NetworkError))]. *)
Definition retry_if_exception_type (e : exn) : bool :=
  match e with
  | TimeoutException | NetworkError => true
  | _ => false
  end.

(** tenacity's [MAX_WAIT], [sys.maxsize / 2]. *)
Definition MAX_WAIT : Q := inject_Z (2 ^ 62).

(** tenacity's [wait_exponential(multiplier, min)] with its defaults
    [exp_base = 2] and [max = MAX_WAIT], called after the attempt numbered
    [attempt_number] (from 1) has failed. *)
Definition wait_exponential (multiplier min_wait : Q) (attempt_number : nat)
  : Q :=
  let exp := inject_Z (2 ^ (Z.of_nat attempt_number - 1)) in
  let result := (multiplier * exp)%Q in
  Qmax (Qmax 0 min_wait) (Qmin result MAX_WAIT).

(** The [@retry] loop around [_do_request].  [remaining] is the number of
    attempts that [stop_after_attempt] still allows after this one;
    [reraise=True] lets the last exception through. *)
Fixpoint retry_call (cfg : SseConfig) (world : nat -> Attempt)
    (remaining attempt_number : nat) (_last_request_time : Q)
  : Q * list Effect * result text :=
  let '(last, effects, r) :=
    _do_request cfg attempt_number (world attempt_number) _last_request_time in
  match r with
  | Ok response => (last, effects, Ok response)
  | Raise e =>
      if retry_if_exception_type e then
        match remaining with
        | O => (last, effects, Raise e)
        | S remaining' =>
            let w := wait_exponential (backoff_multiplier (retry cfg))
                       (initial_delay (retry cfg)) attempt_number in
            let '(last', effects', r') :=
              retry_call cfg world remaining' (S attempt_number) last in
            (last', (effects ++ BackoffSleep w :: effects')%list, r')
        end
      else (last, effects, Raise e)
  end.

(** [_make_request]. *)
Definition _make_request (cfg : SseConfig) (world : nat -> Attempt)
    (_last_request_time : Q) : Q * list Effect * result text :=
  retry_call cfg world (max_attempts (retry cfg) - 1) 1 _last_request_time.

(** ["pageHelp" not in data], for whatever [json.loads] returned. *)
Definition lacks_page_help (data : pyval) : result bool :=
  match data with
  | PyDict items =>
      Ok (negb (existsb (fun kv => String.eqb kv.1 "pageHelp") items))
  | PyList items =>
      Ok (negb (existsb (fun v => match v with
                                  | PyStr s => String.eqb s "pageHelp"
                                  | _ => false
                                  end) items))
  | PyStr s =>
      Ok (negb (contains (text_of_string "pageHelp") (text_of_string s)))
  | PyNone | PyBool _ | PyInt _ | PyFloat _ =>
      Raise (TypeError "argument is not iterable")
  end.

(** [query_page], once the callback name has been drawn and the request
    parameters are built. *)
Definition query_page `{PyBuiltins} (cfg : SseConfig) (callback_name : text)
    (world : nat -> Attempt) (_last_request_time : Q)
  : Q * list Effect * result pyval :=
  let '(last, effects, r) := _make_request cfg world _last_request_time in
  (last, effects,
   match r with
   | Raise e => Raise e
   | Ok body =>
       match _parse_jsonp body callback_name with
       | Raise e => Raise e
       | Ok data =>
           match lacks_page_help data with
           | Raise e => Raise e
           | Ok true =>
               Raise (SseApiError "Response missing 'pageHelp' field"
                        (Some (take 500 (py_str data))))
           | Ok false => Ok data
           end
       end
   end).

(** [d.get(k, default)] on whatever [d] is: only a dict has [get].  A
    [PyDict] holds each key once. *)
Definition py_get (d : pyval) (k : string) (dflt : pyval) : result pyval :=
  match d with
  | PyDict items =>
      Ok match List.find (fun kv => String.eqb kv.1 k) items with
         | Some kv => kv.2
         | None => dflt
         end
  | _ => Raise (OtherException "object has no attribute 'get'")
  end.

(** [get_page_data]: the records and the pagination metadata of a page,
    as values. *)
Definition get_page_data `{PyBuiltins} (cfg : SseConfig) (callback_name : text)
    (world : nat -> Attempt) (_last_request_time : Q)
  : Q * list Effect * result (pyval * pyval) :=
  let '(last, effects, r) :=
    query_page cfg callback_name world _last_request_time in
  (last, effects,
   match r with
   | Raise e => Raise e
   | Ok response =>
       match py_get response "pageHelp" (PyDict []) with
       | Raise e => Raise e
       | Ok page_help =>
           match py_get page_help "data" (PyList []) with
           | Raise e => Raise e
           | Ok records =>
               let records :=
                 match records with
                 | PyNone => PyList []
                 | _ => records
                 end in
               Ok (records, page_help)
           end
       end
   end).

(** [_generate_callback_name], with the random number drawn. *)
Definition _generate_callback_name (cfg : SseConfig) (rand_num : nat) : text :=
  text_of_string (callback_prefix (jsonp cfg) ++ pretty rand_num).

(** The attempts made and the back-off waits taken, read off the
    effects. *)
(** *** [_get_client] and the request parameters *)

(** [d[k] = v] on a dict kept in insertion order: an existing entry keeps
    its place and takes the new value, a new key goes to the end. *)
Fixpoint dict_set (k v : string) (d : list (string * string))
  : list (string * string) :=
  match d with
  | [] => [(k, v)]
  | (k', v') :: rest =>
      if String.eqb k' k then (k, v) :: rest
      else (k', v') :: dict_set k v rest
  end.

(** The headers that [_get_client] hands to [httpx.Client]. *)
Definition _get_client (cfg : SseConfig) : list (string * string) :=
  let headers := headers cfg in
  let cookie_header := build_cookie_header cfg in
  if negb (String.eqb cookie_header "") then
    dict_set "Cookie" cookie_header headers
  else headers.

(** The values of the request parameters. *)
Inductive ParamValue : Type :=
  | ParamText (t : text)
  | ParamStr (s : string)
  | ParamInt (n : Z).

(** The request parameters that [query_page] builds: the dict literal,
    then the three [update]s, each of which overrides what is there. *)
Definition query_page_params (cfg : SseConfig) (callback_name : text)
    (timestamp : Z) (page_no : nat) : gmap string ParamValue :=
  let params : gmap string ParamValue :=
    <["_" := ParamInt timestamp]>
      (<[param_name (jsonp cfg) := ParamText callback_name]> ∅) in
  let params := (ParamStr <$> query cfg) ∪ params in
  let params := (ParamStr <$> filters cfg) ∪ params in
  let params :=
    list_to_map
      [ ("pageHelp.pageNo", ParamInt (Z.of_nat page_no));
        ("pageHelp.pageSize", ParamInt (page_size (pagination cfg)));
        ("pageHelp.beginPage", ParamInt (Z.of_nat page_no));
        ("pageHelp.endPage", ParamInt (Z.of_nat page_no));
        ("pageHelp.cacheSize", ParamInt (cache_size (pagination cfg))) ]
    ∪ params in
  params.

Definition sent (effects : list Effect) : list nat :=
  omap (fun f => match f with Sent n => Some n | _ => None end) effects.

Definition backoffs (effects : list Effect) : list Q :=
  omap (fun f => match f with BackoffSleep w => Some w | _ => None end) effects.

End Client.

(** ** fetchers/sse/fetcher.py *)

Module Fetcher.
Import Config Stock.

(** The values a set can hold, up to Python equality ([True == 1],
    [1.0 == 1]). *)
Inductive pykey : Type :=
  | KNone
  | KInt (n : Z)
  | KFrac (num : Z) (den : positive)
  | KStr (s : string).

#[global] Instance pykey_eq_dec : EqDecision pykey.
Proof. solve_decision. Defined.

#[global] Instance pykey_countable : Countable pykey.
Proof.
  refine (inj_countable'
    (fun k => match k with
              | KNone => inl ()
              | KInt n => inr (inl n)
              | KFrac n d => inr (inr (inl (n, d)))
              | KStr s => inr (inr (inr s))
              end)
    (fun x => match x with
              | inl _ => KNone
              | inr (inl n) => KInt n
              | inr (inr (inl (n, d))) => KFrac n d
              | inr (inr (inr s)) => KStr s
              end) _).
  intros []; reflexivity.
Defined.

(** [hash(v)], as far as set membership sees it; lists and dicts raise. *)
Definition hash_key (v : pyval) : result pykey :=
  match v with
  | PyNone => Ok KNone
  | PyBool b => Ok (KInt (if b then 1 else 0))
  | PyInt n => Ok (KInt n)
  | PyFloat q =>
      let r := Qred q in
      Ok (if Pos.eqb (Qden r) 1 then KInt (Qnum r)
          else KFrac (Qnum r) (Qden r))
  | PyStr s => Ok (KStr s)
  | PyList _ => Raise (TypeError "unhashable type: 'list'")
  | PyDict _ => Raise (TypeError "unhashable type: 'dict'")
  end.

(** The entries of [FetchProgress.errors], by their ["type"]. *)
Inductive ErrorSample : Type :=
  | parse_error (symbol : pyval) (error : string) (page : nat)
  | api_error (page : nat) (error : string) (response_snippet : option text)
  | unexpected_error (page : nat) (error : string).

Record FetchProgress : Type := {
  page_no : nat;
  total_records : nat;
  unique_symbols : gset pykey;
  failed_pages : nat;
  retry_count : nat;
  errors : list ErrorSample;
  start_time : Q
}.

(** [FetchProgress()] created at [start_time]. *)
Definition new_progress (now : Q) : FetchProgress :=
  {| page_no := 0; total_records := 0; unique_symbols := ∅;
     failed_pages := 0; retry_count := 0; errors := []; start_time := now |}.

Definition unique_count (p : FetchProgress) : nat := size (unique_symbols p).

Definition duration (p : FetchProgress) (now : Q) : Q :=
  (now - start_time p)%Q.

Definition MAX_CONSECUTIVE_FAILURES : nat := 3.
Definition MAX_PAGES : nat := 500.
Definition MAX_ERROR_SAMPLES : nat := 10.

(** In-place updates of the progress object. *)
Definition next_page (p : FetchProgress) : FetchProgress :=
  {| page_no := S (page_no p); total_records := total_records p;
     unique_symbols := unique_symbols p; failed_pages := failed_pages p;
     retry_count := retry_count p; errors := errors p;
     start_time := start_time p |}.

(** [unique_symbols.add(symbol); total_records += 1]. *)
Definition mark_seen (k : pykey) (p : FetchProgress) : FetchProgress :=
  {| page_no := page_no p; total_records := S (total_records p);
     unique_symbols := {[k]} ∪ unique_symbols p;
     failed_pages := failed_pages p; retry_count := retry_count p;
     errors := errors p; start_time := start_time p |}.

(** [failed_pages += 1]. *)
Definition page_failed (p : FetchProgress) : FetchProgress :=
  {| page_no := page_no p; total_records := total_records p;
     unique_symbols := unique_symbols p; failed_pages := S (failed_pages p);
     retry_count := retry_count p; errors := errors p;
     start_time := start_time p |}.

(** [if len(errors) < MAX_ERROR_SAMPLES: errors.append(e)]. *)
Definition sample_error (e : ErrorSample) (p : FetchProgress) : FetchProgress :=
  if (length (errors p) <? MAX_ERROR_SAMPLES)%nat then
    {| page_no := page_no p; total_records := total_records p;
       unique_symbols := unique_symbols p; failed_pages := failed_pages p;
       retry_count := retry_count p; errors := (errors p ++ [e])%list;
       start_time := start_time p |}
  else p.

Section Engine.
Context `{PyBuiltins}.
Variable config : SseConfig.

(** [_should_stop]. *)
Definition _should_stop (records : list (gmap string pyval))
    (page_help : gmap string pyval) (progress : FetchProgress)
    (consecutive_empty : nat) : bool :=
  let page_size := page_size (pagination config) in
  let total_pages :=
    py_or (dict_get page_help "totalPages") (dict_get page_help "totalPage") in
  if is_not_none total_pages &&
     match py_int total_pages with
     | Some n => (n <=? Z.of_nat (page_no progress))%Z
     | None => false
     end
  then true
  else
    let total := dict_get page_help "total" in
    if is_not_none total &&
       match py_int total with
       | Some n => (n <=? Z.of_nat (total_records progress))%Z
       | None => false
       end
    then true
    else if match records with [] => true | _ => false end then true
    else if (Z.of_nat (length records) <? page_size)%Z then true
    else if (MAX_CONSECUTIVE_FAILURES <=? consecutive_empty)%nat then true
    else if (MAX_PAGES <=? page_no progress)%nat then true
    else false.

(** [symbol and symbol != "-"]. *)
Definition usable_symbol (symbol : pyval) : bool :=
  truthy symbol &&
  negb match symbol with PyStr s => String.eqb s "-" | _ => false end.

(** [_get_symbol]. *)
Definition _get_symbol (record : gmap string pyval) : option pyval :=
  let symbol := dict_get record "A_STOCK_CODE" in
  if usable_symbol symbol then Some symbol
  else
    let symbol := dict_get record "B_STOCK_CODE" in
    if usable_symbol symbol then Some symbol
    else
      let symbol := dict_get record "COMPANY_CODE" in
      if usable_symbol symbol then Some symbol
      else None.

(** The key under which the deduplication sees a record: the hash of its
    symbol, when it has a symbol and the symbol can be hashed. *)
Definition business_key (record : gmap string pyval) : option pykey :=
  match _get_symbol record with
  | Some symbol =>
      match hash_key symbol with
      | Ok k => Some k
      | Raise _ => None
      end
  | None => None
  end.

(** A record whose symbol, if any, is not a list or a dict. *)
Definition keyed_by_scalar (record : gmap string pyval) : bool :=
  match _get_symbol record with
  | Some (PyList _) | Some (PyDict _) => false
  | _ => true
  end.

(** [str(x)] inside the f-string of the source URL for an optional entry. *)
Definition str_of_opt (o : option string) : string := default "None" o.

(** [_build_source_url]. *)
Definition _build_source_url (page_no : nat) : string :=
  let stock_type := default "1" (filters config !! "STOCK_TYPE") in
  endpoint config ++ "?sqlId=" ++ str_of_opt (query config !! "sqlId")
  ++ "&STOCK_TYPE=" ++ stock_type ++ "&pageNo=" ++ pretty page_no.

(** What the body of the [for raw_data in records] loop does with one
    record: the [continue]s, the [yield] and the caught validation error. *)
Inductive RecordEvent : Type :=
  | NoSymbol
  | Duplicate (symbol : pyval)
  | Yielded (item : RawSseRecord * string * datetime)
  | ParseFailed (symbol : pyval) (e : exn).

(** One run of the loop body; [Raise] is an exception that leaves the
    loop. *)
Definition process_record (source_url : string) (asof : datetime)
    (progress : FetchProgress) (raw_data : gmap string pyval)
  : result (FetchProgress * RecordEvent) :=
  match _get_symbol raw_data with
  | None => Ok (progress, NoSymbol)
  | Some symbol =>
      match hash_key symbol with
      | Raise e => Raise e
      | Ok k =>
          if bool_decide (k ∈ unique_symbols progress) then
            Ok (progress, Duplicate symbol)
          else
            let progress := mark_seen k progress in
            match model_validate raw_data with
            | Ok raw_record =>
                Ok (progress, Yielded (raw_record, source_url, asof))
            | Raise e =>
                Ok (sample_error
                      (parse_error symbol (exn_message e) (page_no progress))
                      progress,
                    ParseFailed symbol e)
            end
      end
  end.

(** The trace of a run: every record the loop body completed on, with
    what happened to it, in order. *)
Definition Trace : Type := list (gmap string pyval * RecordEvent).

(** [for raw_data in records: ...]; the last component is the exception
    that ended the loop early, if any. *)
Fixpoint process_records (source_url : string) (asof : datetime)
    (records : list (gmap string pyval)) (progress : FetchProgress)
  : FetchProgress * Trace * option exn :=
  match records with
  | [] => (progress, [], None)
  | raw_data :: rest =>
      match process_record source_url asof progress raw_data with
      | Raise e => (progress, [], Some e)
      | Ok (progress', ev) =>
          let '(progress'', trace, e) :=
            process_records source_url asof rest progress' in
          (progress'', (raw_data, ev) :: trace, e)
      end
  end.

(** What [client.get_page_data(page_no)] does. *)
Inductive PageResult : Type :=
  | PageData (records : list (gmap string pyval))
             (page_help : gmap string pyval)
  | PageRaised (e : exn).

(** The reply to one page request: the clock reading the client stored in
    [_last_request_time] while asking, and the result. *)
Record PageReply : Type := {
  requested_at : Q;
  page_result : PageResult
}.

(** The state of the [while True] loop: the progress object, the local
    [consecutive_empty] and the client's [_last_request_time]. *)
Record LoopState : Type := {
  progress : FetchProgress;
  consecutive_empty : nat;
  _last_request_time : Q
}.

Inductive Control : Type := Continue | Break.

(** [e.response_text[:200] if e.response_text else None]. *)
Definition response_snippet_of (response_text : option text) : option text :=
  match response_text with
  | Some (c :: rest) => Some (take 200 (c :: rest))
  | Some [] | None => None
  end.

(** The two [except] branches of the loop. *)
Definition handle_failure (e : exn) (progress : FetchProgress)
    (consecutive_empty : nat) (last : Q) : LoopState * Control :=
  let consecutive_empty := S consecutive_empty in
  let progress := page_failed progress in
  let sample :=
    match e with
    | SseApiError message response_text =>
        api_error (page_no progress) message (response_snippet_of response_text)
    | _ => unexpected_error (page_no progress) (exn_message e)
    end in
  let progress := sample_error sample progress in
  ({| progress := progress; consecutive_empty := consecutive_empty;
      _last_request_time := last |},
   if (MAX_CONSECUTIVE_FAILURES <=? consecutive_empty)%nat
   then Break else Continue).

(** One iteration of the [while True] loop. *)
Definition fetch_page (client : nat -> PageReply) (asof : datetime)
    (st : LoopState) : LoopState * Trace * Control :=
  let progress := next_page (progress st) in
  let source_url := _build_source_url (page_no progress) in
  let reply := client (page_no progress) in
  let last := requested_at reply in
  match page_result reply with
  | PageData records page_help =>
      let consecutive_empty := 0%nat in
      match process_records source_url asof records progress with
      | (progress, trace, None) =>
          ({| progress := progress; consecutive_empty := consecutive_empty;
              _last_request_time := last |},
           trace,
           if _should_stop records page_help progress consecutive_empty
           then Break else Continue)
      | (progress, trace, Some e) =>
          let '(st', c) := handle_failure e progress consecutive_empty last in
          (st', trace, c)
      end
  | PageRaised e =>
      let '(st', c) :=
        handle_failure e progress (consecutive_empty st) last in
      (st', [], c)
  end.

(** The first [n] iterations of the [while True] loop, or fewer when the
    loop breaks before: the state, the trace so far and whether the loop
    has ended. *)
Fixpoint fetch_pages (n : nat) (client : nat -> PageReply) (asof : datetime)
    (st : LoopState) : LoopState * Trace * Control :=
  match n with
  | O => (st, [], Continue)
  | S n' =>
      match fetch_page client asof st with
      | (st', trace, Break) => (st', trace, Break)
      | (st', trace, Continue) =>
          let '(st'', trace', c) := fetch_pages n' client asof st' in
          (st'', (trace ++ trace')%list, c)
      end
  end.

(** The [while True] loop run to its end; [None] when it is still running
    after [fuel] iterations. *)
Definition fetch_loop (fuel : nat) (client : nat -> PageReply)
    (asof : datetime) (st : LoopState) : option (LoopState * Trace) :=
  match fetch_pages fuel client asof st with
  | (st', trace, Break) => Some (st', trace)
  | (_, _, Continue) => None
  end.

(** The state in which [iter_raw_records] enters the loop. *)
Definition initial_state (now : Q) : LoopState :=
  {| progress := new_progress now; consecutive_empty := 0;
     _last_request_time := 0 |}.

(** [iter_raw_records] after [n] pages: the state and what the generator
    has done so far. *)
Definition iter_raw_records_upto (n : nat) (client : nat -> PageReply)
    (asof : datetime) (now : Q) : LoopState * Trace * Control :=
  fetch_pages n client asof (initial_state now).

(** [iter_raw_records] run to its end: the final state and the trace of
    the run. *)
Definition iter_raw_records (fuel : nat) (client : nat -> PageReply)
    (asof : datetime) (now : Q) : option (LoopState * Trace) :=
  fetch_loop fuel client asof (initial_state now).

(** The items the generator yields, in order. *)
Definition yielded (trace : Trace) : list (RawSseRecord * string * datetime) :=
  omap (fun entry => match entry.2 with
                     | Yielded item => Some item
                     | _ => None
                     end) trace.

(** The dictionary built by [get_progress_stats]. *)
Record ProgressStats : Type := {
  stats_total_pages : nat;
  stats_total_records : nat;
  stats_unique_records : nat;
  stats_failed_pages : nat;
  stats_retry_count : nat;
  stats_duration_seconds : Q;
  stats_errors : list ErrorSample
}.

(** [get_progress_stats], called at clock reading [now]. *)
Definition get_progress_stats (progress : FetchProgress) (now : Q)
  : ProgressStats :=
  {| stats_total_pages := page_no progress;
     stats_total_records := total_records progress;
     stats_unique_records := unique_count progress;
     stats_failed_pages := failed_pages progress;
     stats_retry_count := retry_count progress;
     stats_duration_seconds := duration progress now;
     stats_errors := errors progress |}.

End Engine.

End Fetcher.

(** ** models/manifest.py *)

Module Manifest.

Record FetchStats : Type := {
  total_pages : nat;
  total_records : nat;
  unique_records : nat;
  failed_pages : nat;
  retry_count : nat;
  duration_seconds : Q;
  categories : gmap string nat
}.

Record UniverseManifest : Type := {
  exchange : string;
  asof : datetime;
  version : string;
  endpoint : string;
  query_params : gmap string string;
  filters : gmap string string;
  pagination : list (string * pyval);
  headers : list (string * string);
  rate_limit : list (string * Q);
  retry : list (string * pyval);
  timeout : Q;
  stats : FetchStats;
  errors : list (list (string * pyval));
  output_files : list string
}.

(** [manifest.stats.total_pages = n]. *)
Definition set_total_pages (n : nat) (m : UniverseManifest) : UniverseManifest :=
  let s := stats m in
  {| exchange := exchange m; asof := asof m; version := version m;
     endpoint := endpoint m; query_params := query_params m;
     filters := filters m; pagination := pagination m; headers := headers m;
     rate_limit := rate_limit m; retry := retry m; timeout := timeout m;
     stats := {| total_pages := n; total_records := total_records s;
                 unique_records := unique_records s;
                 failed_pages := failed_pages s;
                 retry_count := retry_count s;
                 duration_seconds := duration_seconds s;
                 categories := categories s |};
     errors := errors m; output_files := output_files m |}.

Definition str_dict (d : list (string * string)) : pyval :=
  PyDict (map (fun kv => (kv.1, PyStr kv.2)) d).

Definition nat_val (n : nat) : pyval := PyInt (Z.of_nat n).

(** [model_dump(mode="json")] of the statistics. *)
Definition stats_dump (s : FetchStats) : pyval :=
  PyDict
    [ ("total_pages", nat_val (total_pages s));
      ("total_records", nat_val (total_records s));
      ("unique_records", nat_val (unique_records s));
      ("failed_pages", nat_val (failed_pages s));
      ("retry_count", nat_val (retry_count s));
      ("duration_seconds", PyFloat (duration_seconds s));
      ("categories",
       PyDict (map (fun kv => (kv.1, nat_val kv.2))
                 (map_to_list (categories s)))) ].

(** [model_dump(mode="json")] of the manifest. *)
Definition model_dump_json `{PyBuiltins} (m : UniverseManifest)
  : list (string * pyval) :=
  [ ("exchange", PyStr (exchange m));
    ("asof", PyStr (isoformat (asof m)));
    ("version", PyStr (version m));
    ("endpoint", PyStr (endpoint m));
    ("query_params", str_dict (map_to_list (query_params m)));
    ("filters", str_dict (map_to_list (filters m)));
    ("pagination", PyDict (pagination m));
    ("headers", str_dict (headers m));
    ("rate_limit", PyDict (map (fun kv => (kv.1, PyFloat kv.2)) (rate_limit m)));
    ("retry", PyDict (retry m));
    ("timeout", PyFloat (timeout m));
    ("stats", stats_dump (stats m));
    ("errors", PyList (map PyDict (errors m)));
    ("output_files", PyList (map PyStr (output_files m))) ].

(** [to_safe_dict]: the dump without a top-level ["cookies"] entry. *)
Definition to_safe_dict `{PyBuiltins} (m : UniverseManifest)
  : list (string * pyval) :=
  List.filter (fun kv => negb (String.eqb kv.1 "cookies")) (model_dump_json m).

End Manifest.

(** ** storage/universe.py *)

Module Storage.
Import Stock.

(** The characters replaced by [_safe_filename]:
    slash, backslash, colon, star, question mark, double quote, less-than,
    greater-than and bar. *)
Definition unsafe_chars : list nat := [47; 92; 58; 42; 63; 34; 60; 62; 124]%nat.

Fixpoint _safe_filename (s : string) : string :=
  match s with
  | EmptyString => EmptyString
  | String c rest =>
      String (if bool_decide (Ascii.nat_of_ascii c ∈ unsafe_chars)
              then Ascii.ascii_of_nat 95 else c)
             (_safe_filename rest)
  end.

(** The state of a [SnapshotWriter]: the files it has opened, by category,
    with the lines written so far, and its counters. *)
Record SnapshotWriter : Type := {
  exchange : string;
  _file_handles : gmap string (string * list StockRecord);
  _category_counts : gmap string nat;
  _total_count : nat
}.

(** [SnapshotWriter(snapshot_dir, exchange)]. *)
Definition open_writer (exchange : string) : SnapshotWriter :=
  {| exchange := exchange; _file_handles := ∅; _category_counts := ∅;
     _total_count := 0 |}.

Definition file_path (exchange category : string) : string :=
  exchange ++ "/class=" ++ _safe_filename category ++ ".jsonl".

(** [write_record]: open the file of the category on first use, append
    the line, count. *)
Definition write_record (record : StockRecord) (w : SnapshotWriter)
  : SnapshotWriter :=
  let category := Stock.category record in
  let handle :=
    match _file_handles w !! category with
    | Some fh => fh
    | None => (file_path (exchange w) category, [])
    end in
  {| exchange := exchange w;
     _file_handles :=
       <[category := (handle.1, (handle.2 ++ [record])%list)]> (_file_handles w);
     _category_counts :=
       <[category := S (default 0%nat (_category_counts w !! category))]>
         (_category_counts w);
     _total_count := S (_total_count w) |}.

Definition get_stats (w : SnapshotWriter) : gmap string nat :=
  _category_counts w.

Definition get_total_count (w : SnapshotWriter) : nat := _total_count w.

Definition str_le (a b : string) : Prop := Is_true (String.leb a b).

#[global] Instance str_le_dec (a b : string) : Decision (str_le a b).
Proof. unfold str_le. apply _. Defined.

(** [get_output_files]. *)
Definition get_output_files (w : SnapshotWriter) : list string :=
  merge_sort str_le
    (map (fun kv => file_path (exchange w) kv.1)
       (map_to_list (_category_counts w))).

(** [build_manifest]. *)
Definition build_manifest (exchange : string) (asof : datetime)
    (config : Config.SseConfig) (writer : SnapshotWriter)
    (duration_seconds : Q) (failed_pages : nat)
    (errors : list (list (string * pyval))) : Manifest.UniverseManifest :=
  let stats :=
    {| Manifest.total_pages := 0;
       Manifest.total_records := get_total_count writer;
       Manifest.unique_records := get_total_count writer;
       Manifest.failed_pages := failed_pages;
       Manifest.retry_count := 0;
       Manifest.duration_seconds := duration_seconds;
       Manifest.categories := get_stats writer |} in
  {| Manifest.exchange := exchange;
     Manifest.asof := asof;
     Manifest.version := "1.0";
     Manifest.endpoint := Config.endpoint config;
     Manifest.query_params := Config.query config;
     Manifest.filters := Config.filters config;
     Manifest.pagination :=
       [ ("page_size", PyInt (Config.page_size (Config.pagination config)));
         ("cache_size", PyInt (Config.cache_size (Config.pagination config))) ];
     Manifest.headers := Config.get_safe_headers config;
     Manifest.rate_limit :=
       [ ("requests_per_second",
          Config.requests_per_second (Config.rate_limit config));
         ("page_delay", Config.page_delay (Config.rate_limit config)) ];
     Manifest.retry :=
       [ ("max_attempts",
          PyInt (Z.of_nat (Config.max_attempts (Config.retry config))));
         ("backoff_multiplier",
          PyFloat (Config.backoff_multiplier (Config.retry config)));
         ("initial_delay",
          PyFloat (Config.initial_delay (Config.retry config))) ];
     Manifest.timeout := Config.timeout config;
     Manifest.stats := stats;
     Manifest.errors := errors;
     Manifest.output_files := get_output_files writer |}.

(** [write_manifest]: the dictionary that is serialised into
    [manifest.json]. *)
Definition write_manifest `{PyBuiltins} (manifest : Manifest.UniverseManifest)
  : list (string * pyval) :=
  Manifest.to_safe_dict manifest.

End Storage.

(** ** cli/universe.py *)

Module Cli.
Import Stock.

(** [config.filters["STOCK_TYPE"] = stock_type;
    config.pagination.page_size = page_size]. *)
Definition override_config (config : Config.SseConfig) (stock_type : string)
    (page_size : Z) : Config.SseConfig :=
  {| Config.endpoint := Config.endpoint config;
     Config.query := Config.query config;
     Config.filters := <["STOCK_TYPE" := stock_type]> (Config.filters config);
     Config.pagination :=
       {| Config.page_size := page_size;
          Config.cache_size := Config.cache_size (Config.pagination config) |};
     Config.jsonp := Config.jsonp config;
     Config.headers := Config.headers config;
     Config.cookies := Config.cookies config;
     Config.rate_limit := Config.rate_limit config;
     Config.retry := Config.retry config;
     Config.timeout := Config.timeout config |}.

(** The body of the [for ... in fetcher.iter_raw_records(asof)] loop:
    normalise and write, or sample the error (at most 10). *)
Definition consume (stock_type : string) (include_raw : bool)
    (acc : Storage.SnapshotWriter * nat * list (list (string * pyval)))
    (item : RawSseRecord * string * datetime)
  : Storage.SnapshotWriter * nat * list (list (string * pyval)) :=
  let '(writer, total_records, errors) := acc in
  let '(raw_record, source_url, record_asof) := item in
  match Normalizer.normalize_sse_record raw_record source_url record_asof
          stock_type include_raw with
  | Ok normalized =>
      (Storage.write_record normalized writer, S total_records, errors)
  | Raise e =>
      (writer, total_records,
       if (length errors <? 10)%nat then
         (errors ++ [[ ("type", PyStr "normalize_error");
                       ("error", PyStr (exn_message e)) ]])%list
       else errors)
  end.

(** What a run of [fetch_universe] leaves behind. *)
Record FetchRun : Type := {
  manifest_json : list (string * pyval);
  manifest : Manifest.UniverseManifest;
  writer : Storage.SnapshotWriter;
  engine : Fetcher.LoopState
}.

(** [fetch_universe] for the exchange ["sse"], from the loaded
    configuration on.  [duration] is the clock difference measured around
    the fetch; [None] when the engine is still running after [fuel]
    pages. *)
Definition fetch_universe `{PyBuiltins} (fuel : nat)
    (config : Config.SseConfig) (client : nat -> Fetcher.PageReply)
    (asof : datetime) (now duration : Q)
    (stock_type : string) (page_size : Z) (include_raw : bool)
  : option FetchRun :=
  let config := override_config config stock_type page_size in
  let failed_pages := 0%nat in
  match Fetcher.iter_raw_records config fuel client asof now with
  | None => None
  | Some (st, trace) =>
      let '(writer, total_records, errors) :=
        foldl (consume stock_type include_raw)
          (Storage.open_writer "Shanghai_Stocks", 0%nat, [])
          (Fetcher.yielded trace) in
      let manifest :=
        Storage.build_manifest "Shanghai_Stocks" asof config writer duration
          failed_pages errors in
      let manifest :=
        Manifest.set_total_pages
          (if negb (Qle_bool (Fetcher._last_request_time st) 0)
           then 1 else 0)%nat
          manifest in
      Some {| manifest_json := Storage.write_manifest manifest;
              manifest := manifest;
              writer := writer;
              engine := st |}
  end.

End Cli.

(** ** A concrete runtime for closed examples *)

Module Sample.

Definition digit_of (c : Ascii.ascii) : option Z :=
  let n := Ascii.nat_of_ascii c in
  if (48 <=? n)%nat && (n <=? 57)%nat then Some (Z.of_nat (n - 48)) else None.

Fixpoint digits (acc : Z) (s : string) : option Z :=
  match s with
  | EmptyString => Some acc
  | String c rest =>
      match digit_of c with
      | Some d => digits (10 * acc + d) rest
      | None => None
      end
  end.

(** [int] on plain decimal literals with an optional sign. *)
Definition int_of_decimal (s : string) : option Z :=
  match s with
  | EmptyString => None
  | String c rest =>
      if Ascii.eqb c (Ascii.ascii_of_nat 45) then
        match rest with
        | EmptyString => None
        | _ => Z.opp <$> digits 0 rest
        end
      else digits 0 s
  end.

(** The word characters of ASCII: letters, digits and the underscore. *)
Definition ascii_word (c : codepoint) : bool :=
  ((48 <=? c) && (c <=? 57) || (65 <=? c) && (c <=? 90)
   || (97 <=? c) && (c <=? 122) || (c =? 95))%N.

Definition text_eqb (a b : text) : bool := bool_decide (a = b).

(** A decoder that knows two JSON documents, enough to run the unwrapping
    on concrete bodies. *)
Definition loads_literal (t : text) : pyval + string :=
  if text_eqb t (text_of_string "{}") then inl (PyDict [])
  else if text_eqb t (text_of_string "null") then inl PyNone
  else inr "Expecting value".

#[export] Instance builtins : PyBuiltins :=
  {| int_of_str := int_of_decimal;
     json_loads := loads_literal;
     re_word := ascii_word;
     isoformat := fun d => pretty d;
     py_str := fun _ => text_of_string "<value>" |}.

End Sample.

(** ** Concrete pages for closed examples *)

Module Examples.
Import Fetcher.

(** A reply stamped at a positive clock reading. *)
Definition reply (r : PageResult) : PageReply :=
  {| requested_at := 1769774400; page_result := r |}.

(** A listing whose serial number came as a JSON number: it does not
    validate as [RawSseRecord]. *)
Definition listing_numbered : gmap string pyval :=
  list_to_map [ ("A_STOCK_CODE", PyStr "600000"); ("NUM", PyInt 1) ].

(** The same stock, well formed. *)
Definition listing_600000 : gmap string pyval :=
  list_to_map [ ("A_STOCK_CODE", PyStr "600000"); ("NUM", PyStr "1") ].

Definition listing_600004 : gmap string pyval :=
  list_to_map [ ("A_STOCK_CODE", PyStr "-"); ("B_STOCK_CODE", PyStr "900901");
                ("SEC_NAME_CN", PyStr "B share") ].

Definition listing_600006 : gmap string pyval :=
  list_to_map [ ("COMPANY_CODE", PyStr "600006") ].

(** Page 1 holds the malformed listing and then the well-formed one. *)
Definition client_poisoned (page : nat) : PageReply :=
  reply match page with
        | 1 => PageData [listing_numbered; listing_600000] ∅
        | _ => PageData [] ∅
        end.

(** Page 1 holds the well-formed listing twice and another stock. *)
Definition client_repeated (page : nat) : PageReply :=
  reply match page with
        | 1 => PageData [listing_600000; listing_600004; listing_600000] ∅
        | _ => PageData [] ∅
        end.

(** A validated record with the given codes, short name and serial
    number. *)
Definition listed (a b c name num : option string) : Stock.RawSseRecord :=
  {| Stock.A_STOCK_CODE := a; Stock.B_STOCK_CODE := b;
     Stock.COMPANY_CODE := c; Stock.SEC_NAME_CN := name;
     Stock.SEC_NAME_FULL := None; Stock.COMPANY_ABBR := None;
     Stock.FULL_NAME := None; Stock.FULL_NAME_IN_ENGLISH := None;
     Stock.COMPANY_ABBR_EN := None; Stock.STOCK_TYPE := None;
     Stock.LIST_BOARD := None; Stock.LIST_DATE := None;
     Stock.DELIST_DATE := None; Stock.CSRC_CODE := None;
     Stock.CSRC_CODE_DESC := None; Stock.AREA_NAME := None;
     Stock.AREA_NAME_DESC := None; Stock.STATE_CODE := None;
     Stock.STATE_CODE_STOCK := None; Stock.PRODUCT_STATUS := None;
     Stock.NUM := num; Stock.extra := ∅ |}.

Definition record_600000 : Stock.RawSseRecord :=
  listed (Some "600000") None None None (Some "1").

Definition record_900901 : Stock.RawSseRecord :=
  listed (Some "-") (Some "900901") None (Some "B share") None.

(** The source URL of page 1 under the default configuration. *)
Definition url_page_1 : string :=
  "https://query.sse.com.cn/sseQuery/commonQuery.do"
  ++ "?sqlId=COMMON_SSE_CP_GPJCTPZ_GPLB_GP_L&STOCK_TYPE=1&pageNo=1".

(** The trace and the final state of the run over [client_repeated]. *)
Definition trace_repeated : Trace :=
  [ (listing_600000, Yielded (record_600000, url_page_1, 0%Z));
    (listing_600004, Yielded (record_900901, url_page_1, 0%Z));
    (listing_600000, Duplicate (PyStr "600000")) ].

Definition final_repeated : LoopState :=
  {| progress :=
       {| page_no := 1; total_records := 2;
          unique_symbols := {[ KStr "600000"; KStr "900901" ]};
          failed_pages := 0; retry_count := 0; errors := [];
          start_time := 0 |};
     consecutive_empty := 0;
     _last_request_time := 1769774400 |}.

(** The trace of the run over [client_poisoned]. *)
Definition trace_poisoned : Trace :=
  [ (listing_numbered,
     ParseFailed (PyStr "600000") (ValidationError ["NUM"]));
    (listing_600000, Duplicate (PyStr "600000")) ].




(** A full page of two records, then a short page. *)
Definition client_two_pages (page : nat) : PageReply :=
  reply match page with
        | 1 => PageData [listing_600000; listing_600004] ∅
        | 2 => PageData [listing_600006] ∅
        | _ => PageData [] ∅
        end.

(** A listing whose code came as a JSON array, and a server that sends it
    on every page. *)
Definition listing_nested : gmap string pyval :=
  list_to_map [ ("A_STOCK_CODE", PyList [PyStr "600000"]) ].

Definition client_nested (page : nat) : PageReply :=
  reply (PageData [listing_nested] ∅).

(** A configuration that sends a bearer token and a cookie. *)
Definition config_with_credentials : Config.SseConfig :=
  {| Config.endpoint := Config.endpoint Config.default_config;
     Config.query := Config.query Config.default_config;
     Config.filters := Config.filters Config.default_config;
     Config.pagination := Config.default_pagination;
     Config.jsonp := Config.default_jsonp;
     Config.headers :=
       [ ("User-Agent", "stock-bot"); ("Cookie", "sid=abc");
         ("Authorization", "Bearer s3cr3t") ];
     Config.cookies := [ ("sid", "abc") ];
     Config.rate_limit := Config.default_rate_limit;
     Config.retry := Config.default_retry;
     Config.timeout := 30 |}.

(** Two time-outs, then a response. *)
Definition world_two_timeouts (attempt_number : nat) : Client.Attempt :=
  {| Client.clock_before := 1769774400 + inject_Z (Z.of_nat attempt_number);
     Client.clock_sent := 1769774400 + inject_Z (Z.of_nat attempt_number);
     Client.outcome :=
       match attempt_number with
       | 1 | 2 => Raise TimeoutException
       | _ => Ok (text_of_string "jsonpCallback12345678({})")
       end |}.

(** A gateway error on the first attempt. *)
Definition world_bad_gateway (attempt_number : nat) : Client.Attempt :=
  {| Client.clock_before := 1769774400;
     Client.clock_sent := 1769774400;
     Client.outcome := Raise (HTTPStatusError 502) |}.

End Examples.

(** ** Specification-level notions for the engine *)

Module FetcherSpec.
Import Config Stock Fetcher.

(** *** The counters agree: [total_records] is the size of the set *)

Definition counts_agree (p : FetchProgress) : Prop :=
  total_records p = size (unique_symbols p).

(** [deduped S trace S']: starting with the seen-set [S], the loop body
    can have produced [trace], and the seen-set is then [S']. *)
Inductive deduped : gset pykey -> Trace -> gset pykey -> Prop :=
  | deduped_nil S : deduped S [] S
  | deduped_no_symbol S raw trace S' :
      _get_symbol raw = None ->
      deduped S trace S' ->
      deduped S ((raw, NoSymbol) :: trace) S'
  | deduped_duplicate S raw symbol k trace S' :
      _get_symbol raw = Some symbol -> hash_key symbol = Ok k ->
      k ∈ S ->
      deduped S trace S' ->
      deduped S ((raw, Duplicate symbol) :: trace) S'
  | deduped_yielded S raw symbol k r url asof trace S' :
      _get_symbol raw = Some symbol -> hash_key symbol = Ok k ->
      k ∉ S -> model_validate raw = Ok r ->
      deduped ({[k]} ∪ S) trace S' ->
      deduped S ((raw, Yielded (r, url, asof)) :: trace) S'
  | deduped_parse_failed S raw symbol k e trace S' :
      _get_symbol raw = Some symbol -> hash_key symbol = Ok k ->
      k ∉ S -> model_validate raw = Raise e ->
      deduped ({[k]} ∪ S) trace S' ->
      deduped S ((raw, ParseFailed symbol e) :: trace) S'.


(** The states at the head of an iteration that the loop can be in: the
    failure counter is below the threshold, and the pages beyond the
    ceiling are all failed ones. *)
Definition head_ok (st : LoopState) : Prop :=
  (consecutive_empty st < MAX_CONSECUTIVE_FAILURES)%nat /\
  (page_no (progress st) < MAX_PAGES + consecutive_empty st)%nat.

(** Every page the server returns holds records whose symbol can be
    hashed. *)
Definition scalar_keys (client : nat -> PageReply) : Prop :=
  forall page records page_help,
    page_result (client page) = PageData records page_help ->
    forallb keyed_by_scalar records = true.

(** The keys of the values that [_get_symbol] passes over: [None], zero
    (which is also [False] and [0.0]), the empty string and the dash. *)
Definition rejected_key (k : pykey) : bool :=
  match k with
  | KNone => true
  | KInt n => Z.eqb n 0
  | KFrac _ _ => false
  | KStr s => String.eqb s "" || String.eqb s "-"
  end.

(** The events at which the loop body counts a record. *)
Definition counted (ev : RecordEvent) : bool :=
  match ev with
  | Yielded _ | ParseFailed _ _ => true
  | NoSymbol | Duplicate _ => false
  end.

(** The records of a trace whose validation failed. *)
Definition parse_failures (trace : Trace) : list (gmap string pyval) :=
  omap (fun entry => match entry.2 with
                     | ParseFailed _ _ => Some entry.1
                     | _ => None
                     end) trace.

(** The business keys of the records a trace yields, in order. *)
Definition yielded_keys (trace : Trace) : list pykey :=
  omap (fun entry => match entry.2 with
                     | Yielded _ => business_key entry.1
                     | _ => None
                     end) trace.

(** An error sample whose response snippet, when it has one, is not empty
    and not longer than 200 characters, and whose page is at most [n]. *)
Definition sample_ok (n : nat) (e : ErrorSample) : Prop :=
  match e with
  | parse_error _ _ page => (1 <= page)%nat /\ (page <= n)%nat
  | api_error page _ snippet =>
      (1 <= page)%nat /\ (page <= n)%nat /\
      match snippet with
      | Some t => (1 <= length t)%nat /\ (length t <= 200)%nat
      | None => True
      end
  | unexpected_error page _ => (1 <= page)%nat /\ (page <= n)%nat
  end.

(** The samples are sound and their number is the number of failures so
    far, capped. *)
Definition samples_ok (failures : nat) (p : FetchProgress) : Prop :=
  length (errors p) = (MAX_ERROR_SAMPLES `min` failures)%nat /\
  Forall (sample_ok (page_no p)) (errors p).

Section Reached.
Context `{PyBuiltins}.
Variable config : SseConfig.

(** The states the loop is in at the head of an iteration ([Continue]) or
    when it has left the loop ([Break]). *)
Inductive reached (client : nat -> PageReply) (asof : datetime) (now : Q)
  : LoopState -> Control -> Prop :=
  | reached_start : reached client asof now (initial_state now) Continue
  | reached_page st st' trace c :
      reached client asof now st Continue ->
      fetch_page config client asof st = (st', trace, c) ->
      reached client asof now st' c.

End Reached.

End FetcherSpec.

(** ** Specification-level notions for the client *)

Module ClientSpec.
Import Config Client.





(** The back-off the retry settings are named after: [initial_delay]
    before the first retry, multiplied by [backoff_multiplier] for each
    further one. *)
Definition geometric_backoff (cfg : SseConfig) (attempt_number : nat) : Q :=
  (initial_delay (retry cfg)
   * backoff_multiplier (retry cfg) ^ (Z.of_nat attempt_number - 1))%Q.

(** A decoded value that is a JSON object. *)
Definition is_object (v : pyval) : bool :=
  match v with PyDict _ => true | _ => false end.

(** The parameters that carry the page request. *)
Definition pagination_keys : list string :=
  [ "pageHelp.pageNo"; "pageHelp.pageSize"; "pageHelp.beginPage";
    "pageHelp.endPage"; "pageHelp.cacheSize" ].

(** The bounds that the fields of the configuration models declare. *)
Definition valid_config (cfg : SseConfig) : Prop :=
  (1 <= page_size (pagination cfg))%Z /\
  (page_size (pagination cfg) <= 200)%Z /\
  (1 # 10 <= requests_per_second (rate_limit cfg))%Q /\
  (requests_per_second (rate_limit cfg) <= 10)%Q /\
  (0 <= page_delay (rate_limit cfg))%Q /\
  (1 <= max_attempts (retry cfg))%nat /\
  (max_attempts (retry cfg) <= 10)%nat /\
  (1 <= backoff_multiplier (retry cfg))%Q /\
  (1 # 10 <= initial_delay (retry cfg))%Q /\
  (1 <= timeout cfg)%Q.

End ClientSpec.

(** ** Specification-level notions for the writer *)

Module StorageSpec.
Import Stock Storage.

(** The writer after the records [rs] were written, in this order, to a
    fresh writer for [exchange]. *)
Definition written (exchange : string) (rs : list StockRecord) : SnapshotWriter :=
  foldl (fun w r => write_record r w) (open_writer exchange) rs.

(** The records of [rs] that belong to [category], in their order. *)
Definition of_category (category : string) (rs : list StockRecord)
  : list StockRecord :=
  List.filter (fun r => String.eqb (Stock.category r) category) rs.

(** Whether a character is one of those [_safe_filename] replaces. *)
Definition unsafe (c : Ascii.ascii) : Prop :=
  Ascii.nat_of_ascii c ∈ unsafe_chars.

End StorageSpec.

(** ** Specification-level notions for the command *)

Module CliSpec.


(** The keys of the dictionary written to [manifest.json]. *)
Definition manifest_keys : list string :=
  [ "exchange"; "asof"; "version"; "endpoint"; "query_params"; "filters";
    "pagination"; "headers"; "rate_limit"; "retry"; "timeout"; "stats";
    "errors"; "output_files" ].

End CliSpec.

(** ** Specification-level notions for the record models *)

Module StockSpec.
Import Stock.

(** The declared fields of a [RawSseRecord] with their values. *)
Definition declared_values (r : RawSseRecord) : list (string * option string) :=
  [ ("A_STOCK_CODE", A_STOCK_CODE r);
    ("B_STOCK_CODE", B_STOCK_CODE r);
    ("COMPANY_CODE", COMPANY_CODE r);
    ("SEC_NAME_CN", SEC_NAME_CN r);
    ("SEC_NAME_FULL", SEC_NAME_FULL r);
    ("COMPANY_ABBR", COMPANY_ABBR r);
    ("FULL_NAME", FULL_NAME r);
    ("FULL_NAME_IN_ENGLISH", FULL_NAME_IN_ENGLISH r);
    ("COMPANY_ABBR_EN", COMPANY_ABBR_EN r);
    ("STOCK_TYPE", STOCK_TYPE r);
    ("LIST_BOARD", LIST_BOARD r);
    ("LIST_DATE", LIST_DATE r);
    ("DELIST_DATE", DELIST_DATE r);
    ("CSRC_CODE", CSRC_CODE r);
    ("CSRC_CODE_DESC", CSRC_CODE_DESC r);
    ("AREA_NAME", AREA_NAME r);
    ("AREA_NAME_DESC", AREA_NAME_DESC r);
    ("STATE_CODE", STATE_CODE r);
    ("STATE_CODE_STOCK", STATE_CODE_STOCK r);
    ("PRODUCT_STATUS", PRODUCT_STATUS r);
    ("NUM", NUM r) ].

(** A value that a [str | None] field accepts. *)
Definition str_or_null (v : option pyval) : Prop :=
  v = None \/ v = Some PyNone \/ exists s, v = Some (PyStr s).

End StockSpec.

(** * Properties *)

Module NormalizerProps.
Import Stock Normalizer.

Lemma unusable_spec (o : option string) :
  unusable o = match o with
               | Some s => negb (usable_code s)
               | None => true
               end.
Proof.
  destruct o as [s|]; [|reflexivity].
  unfold unusable, usable_code, non_empty; simpl.
  destruct (String.eqb_spec s ""), (String.eqb_spec s "-"); subst; simpl;
    try reflexivity; case_bool_decide; congruence.
Qed.

Lemma usable_code_non_empty (s : string) : usable_code s = true -> s <> "".
Proof.
  unfold usable_code, non_empty.
  destruct (String.eqb_spec s ""); simpl; congruence.
Qed.

Lemma str_truthy_spec (o : option string) :
  str_truthy o = match o with Some s => non_empty s | None => false end.
Proof. destruct o; reflexivity. Qed.

(** Case analysis over a cascade of conditional assignments: rewrite the
    known tests and simplify until nothing changes. *)
Ltac cascade_cases :=
  repeat (simpl;
          match goal with
          | H : non_empty _ = _ |- _ => rewrite H
          | H : usable_code _ = _ |- _ => rewrite H
          | |- context [unusable _] => rewrite unusable_spec
          end);
  simpl.

Lemma non_empty_neq (s : string) : non_empty s = true -> s <> "".
Proof.
  unfold non_empty. destruct (String.eqb_spec s ""); simpl; congruence.
Qed.

(** The cascade of [if not name] assignments computes the first non-empty
    candidate, with the symbol as the last resort. *)
Lemma name_cascade (s : string) (o1 o2 o3 : option string) :
  s <> "" ->
  let nm := o1 in
  let nm := if negb (str_truthy nm) then o2 else nm in
  let nm := if negb (str_truthy nm) then o3 else nm in
  let nm := if negb (str_truthy nm) then Some s else nm in
  default "" nm = default s (first_candidate non_empty [o1; o2; o3]) /\
  default "" nm <> "".
Proof.
  intros Hs. cbv zeta. rewrite !str_truthy_spec. simpl.
  destruct o1 as [x1|]; [destruct (non_empty x1) eqn:E1|];
    (destruct o2 as [x2|]; [destruct (non_empty x2) eqn:E2|]);
    (destruct o3 as [x3|]; [destruct (non_empty x3) eqn:E3|]);
    cascade_cases; auto using non_empty_neq.
Qed.

(** The cascade of [if not symbol or symbol == "-"] assignments computes
    the first usable code. *)
Lemma symbol_cascade (a b c : option string) :
  let sym := a in
  let sym := if unusable sym then b else sym in
  let sym := if unusable sym then c else sym in
  match first_candidate usable_code [a; b; c] with
  | Some s => sym = Some s /\ unusable sym = false /\ s <> ""
  | None => unusable sym = true
  end.
Proof.
  cbv zeta. rewrite !unusable_spec.
  destruct a as [x1|]; [destruct (usable_code x1) eqn:E1|];
    (destruct b as [x2|]; [destruct (usable_code x2) eqn:E2|]);
    (destruct c as [x3|]; [destruct (usable_code x3) eqn:E3|]);
    cascade_cases; auto using usable_code_non_empty.
Qed.

(** C4. normalize_sse_record takes as symbol the first of A_STOCK_CODE,
    B_STOCK_CODE, COMPANY_CODE that is non-empty and not "-", and as name
    the first non-empty of SEC_NAME_CN, COMPANY_ABBR, SEC_NAME_FULL, else
    the symbol; with no usable code it raises instead of returning; a
    returned record has a non-empty symbol and a non-empty name. *)
Theorem normalize_symbol_and_name
    (raw : RawSseRecord) (url : string) (asof : datetime)
    (stock_type : string) (include_raw : bool) :
  match spec_symbol raw with
  | Some s =>
      exists rec,
        normalize_sse_record raw url asof stock_type include_raw = Ok rec /\
        symbol rec = s /\
        name rec = spec_name raw s /\
        symbol rec <> "" /\ name rec <> ""
  | None =>
      exists e,
        normalize_sse_record raw url asof stock_type include_raw = Raise e
  end.
Proof.
  unfold spec_symbol, spec_name, normalize_sse_record.
  pose proof (symbol_cascade (A_STOCK_CODE raw) (B_STOCK_CODE raw)
                (COMPANY_CODE raw)) as Hsym.
  cbv zeta in Hsym |- *.
  destruct (first_candidate usable_code _) as [s|].
  - destruct Hsym as (Hs & Hu & Hne). rewrite Hu, Hs.
    eexists; split; [reflexivity|]. simpl.
    pose proof (name_cascade s (SEC_NAME_CN raw) (COMPANY_ABBR raw)
                  (SEC_NAME_FULL raw) Hne) as Hname.
    cbv zeta in Hname. destruct Hname as [Hn1 Hn2]. auto.
  - rewrite Hsym. eexists; reflexivity.
Qed.

End NormalizerProps.
Module FetcherProps.
Import Config Stock Fetcher FetcherSpec.

Section Engine.
Context `{PyBuiltins}.
Variable config : SseConfig.


Lemma counts_agree_new now : counts_agree (new_progress now).
Proof. reflexivity. Qed.

Lemma counts_agree_next_page p : counts_agree p -> counts_agree (next_page p).
Proof. done. Qed.

Lemma counts_agree_page_failed p :
  counts_agree p -> counts_agree (page_failed p).
Proof. done. Qed.

Lemma counts_agree_sample_error e p :
  counts_agree p -> counts_agree (sample_error e p).
Proof. unfold sample_error. by case_match. Qed.

Lemma counts_agree_mark_seen k p :
  k ∉ unique_symbols p -> counts_agree p -> counts_agree (mark_seen k p).
Proof.
  unfold counts_agree; simpl. intros Hk ->.
  rewrite size_union by set_solver. by rewrite size_singleton.
Qed.

Lemma unique_symbols_sample_error e p :
  unique_symbols (sample_error e p) = unique_symbols p.
Proof. unfold sample_error. by case_match. Qed.

Lemma total_records_sample_error e p :
  total_records (sample_error e p) = total_records p.
Proof. unfold sample_error. by case_match. Qed.

Lemma page_no_sample_error e p : page_no (sample_error e p) = page_no p.
Proof. unfold sample_error. by case_match. Qed.

Lemma failed_pages_sample_error e p :
  failed_pages (sample_error e p) = failed_pages p.
Proof. unfold sample_error. by case_match. Qed.

Lemma process_record_counts url asof p raw p' ev :
  process_record url asof p raw = Ok (p', ev) ->
  counts_agree p -> counts_agree p'.
Proof.
  unfold process_record. intros Hrun Hp.
  destruct (_get_symbol raw) as [symbol|]; [|by simplify_eq].
  destruct (hash_key symbol) as [k|]; [|done].
  case_bool_decide as Hk; [by simplify_eq|].
  destruct (model_validate raw); simplify_eq.
  - by apply counts_agree_mark_seen.
  - by apply counts_agree_sample_error, counts_agree_mark_seen.
Qed.

Lemma process_records_counts url asof records : forall p p' trace e,
  process_records url asof records p = (p', trace, e) ->
  counts_agree p -> counts_agree p'.
Proof.
  induction records as [|raw rest IH]; simpl; intros p p' trace e Hrun Hp.
  - by simplify_eq.
  - destruct (process_record url asof p raw) as [[p1 ev]|] eqn:Hstep;
      [|by simplify_eq].
    destruct (process_records url asof rest p1) as [[p2 tr2] e2] eqn:Hrest.
    simplify_eq. eapply IH; [done|]. by eapply process_record_counts.
Qed.

Lemma handle_failure_counts e p c last :
  counts_agree p -> counts_agree (progress (handle_failure e p c last).1).
Proof.
  intros Hp. unfold handle_failure; simpl.
  by apply counts_agree_sample_error, counts_agree_page_failed.
Qed.

Lemma fetch_page_counts client asof st :
  counts_agree (progress st) ->
  counts_agree (progress (fetch_page config client asof st).1.1).
Proof.
  intros Hst. unfold fetch_page.
  destruct (page_result _) as [records page_help|e].
  - destruct (process_records _ _ _ _) as [[p tr] [e|]] eqn:Hrun.
    + pose proof (handle_failure_counts e p 0 (requested_at (client (page_no (next_page (progress st))))))
        as Hf.
      destruct (handle_failure _ _ _ _) as [st' c]; simpl in *.
      apply Hf. eapply process_records_counts; [done|].
      by apply counts_agree_next_page.
    + simpl. eapply process_records_counts; [done|].
      by apply counts_agree_next_page.
  - pose proof (handle_failure_counts e (next_page (progress st))
                  (consecutive_empty st)
                  (requested_at (client (page_no (next_page (progress st))))))
      as Hf.
    destruct (handle_failure _ _ _ _) as [st' c]; simpl in *.
    by apply Hf, counts_agree_next_page.
Qed.

Lemma reached_counts client asof now st c :
  reached config client asof now st c -> counts_agree (progress st).
Proof.
  induction 1 as [|st st' trace c _ IH Hpage].
  - apply counts_agree_new.
  - pose proof (fetch_page_counts client asof st IH) as Hc.
    by rewrite Hpage in Hc.
Qed.

Lemma fetch_pages_reached client asof now n : forall st st' trace c,
  reached config client asof now st Continue ->
  fetch_pages config n client asof st = (st', trace, c) ->
  reached config client asof now st' c.
Proof.
  induction n as [|n IH]; simpl; intros st st' trace c Hst Hrun.
  - by simplify_eq.
  - destruct (fetch_page config client asof st) as [[st1 tr1] [|]] eqn:Hpage.
    + destruct (fetch_pages config n client asof st1) as [[st2 tr2] c2] eqn:Hrest.
      simplify_eq. eapply IH; [|done]. by eapply reached_page.
    + simplify_eq. by eapply reached_page.
Qed.

Lemma fetch_loop_pages client asof fuel st st' trace :
  fetch_loop config fuel client asof st = Some (st', trace) <->
  fetch_pages config fuel client asof st = (st', trace, Break).
Proof.
  unfold fetch_loop.
  destruct (fetch_pages config fuel client asof st) as [[st1 tr1] [|]];
    split; intros; by simplify_eq.
Qed.

Lemma fetch_loop_reached client asof now fuel st st' trace :
  reached config client asof now st Continue ->
  fetch_loop config fuel client asof st = Some (st', trace) ->
  reached config client asof now st' Break.
Proof.
  intros Hst Hrun%fetch_loop_pages. by eapply fetch_pages_reached.
Qed.

(** *** Deduplication, read off the trace *)


Lemma business_key_Some raw symbol k :
  _get_symbol raw = Some symbol -> hash_key symbol = Ok k ->
  business_key raw = Some k.
Proof. unfold business_key. by intros -> ->. Qed.


Lemma deduped_app S1 t1 S2 t2 S3 :
  deduped S1 t1 S2 -> deduped S2 t2 S3 -> deduped S1 (t1 ++ t2)%list S3.
Proof.
  induction 1; simpl; intros; eauto using deduped.
Qed.

Lemma deduped_app_inv t1 : forall S t2 S',
  deduped S (t1 ++ t2)%list S' ->
  exists S1, deduped S t1 S1 /\ deduped S1 t2 S'.
Proof.
  induction t1 as [|x t1 IH]; simpl; intros S t2 S' Hd.
  - eauto using deduped.
  - inversion Hd; subst;
      match goal with Hrest : deduped _ (t1 ++ t2)%list _ |- _ =>
        destruct (IH _ _ _ Hrest) as (S1 & Ha & Hb) end;
      eauto using deduped.
Qed.

Lemma deduped_mono S trace S' : deduped S trace S' -> S ⊆ S'.
Proof. induction 1; set_solver. Qed.

(** Every record of the trace that has a key has it in the final set. *)
Lemma deduped_keys_seen S trace S' :
  deduped S trace S' ->
  forall raw ev k, (raw, ev) ∈ trace -> business_key raw = Some k -> k ∈ S'.
Proof.
  induction 1 as [S|S raw0 tr S' Hsym Hd IH|S raw0 sym k0 tr S' Hsym Hk Hin Hd IH
                 |S raw0 sym k0 r url asof tr S' Hsym Hk Hin Hv Hd IH
                 |S raw0 sym k0 e tr S' Hsym Hk Hin Hv Hd IH];
    intros raw ev k Hel Hkey.
  - by apply elem_of_nil in Hel.
  - apply elem_of_cons in Hel as [Heq|Hel]; [|by eauto].
    simplify_eq. unfold business_key in Hkey. by rewrite Hsym in Hkey.
  - apply elem_of_cons in Hel as [Heq|Hel]; [|by eauto].
    simplify_eq. rewrite (business_key_Some _ _ _ Hsym Hk) in Hkey.
    simplify_eq. by eapply deduped_mono.
  - apply elem_of_cons in Hel as [Heq|Hel]; [|by eauto].
    simplify_eq. rewrite (business_key_Some _ _ _ Hsym Hk) in Hkey.
    simplify_eq. apply deduped_mono in Hd. set_solver.
  - apply elem_of_cons in Hel as [Heq|Hel]; [|by eauto].
    simplify_eq. rewrite (business_key_Some _ _ _ Hsym Hk) in Hkey.
    simplify_eq. apply deduped_mono in Hd. set_solver.
Qed.

(** Once a key is in the set, every record with that key is a duplicate. *)
Lemma deduped_seen_duplicate S trace S' :
  deduped S trace S' ->
  forall raw ev k,
    k ∈ S -> (raw, ev) ∈ trace -> business_key raw = Some k ->
    exists symbol, ev = Duplicate symbol.
Proof.
  induction 1 as [S|S raw0 tr S' Hsym Hd IH|S raw0 sym k0 tr S' Hsym Hk Hin Hd IH
                 |S raw0 sym k0 r url asof tr S' Hsym Hk Hin Hv Hd IH
                 |S raw0 sym k0 e tr S' Hsym Hk Hin Hv Hd IH];
    intros raw ev k HkS Hel Hkey.
  - by apply elem_of_nil in Hel.
  - apply elem_of_cons in Hel as [Heq|Hel]; [|by eauto].
    simplify_eq. unfold business_key in Hkey. by rewrite Hsym in Hkey.
  - apply elem_of_cons in Hel as [Heq|Hel]; [|by eauto].
    simplify_eq. eauto.
  - apply elem_of_cons in Hel as [Heq|Hel].
    + simplify_eq. rewrite (business_key_Some _ _ _ Hsym Hk) in Hkey.
      by simplify_eq.
    + eapply IH; [|done..]. set_solver.
  - apply elem_of_cons in Hel as [Heq|Hel].
    + simplify_eq. rewrite (business_key_Some _ _ _ Hsym Hk) in Hkey.
      by simplify_eq.
    + eapply IH; [|done..]. set_solver.
Qed.



Lemma process_record_deduped url asof p raw p' ev :
  process_record url asof p raw = Ok (p', ev) ->
  deduped (unique_symbols p) [(raw, ev)] (unique_symbols p').
Proof.
  unfold process_record. intros Hrun.
  destruct (_get_symbol raw) as [symbol|] eqn:Hsym;
    [|simplify_eq; eauto using deduped].
  destruct (hash_key symbol) as [k|] eqn:Hk; [|done].
  case_bool_decide as HkS; [simplify_eq; eauto using deduped|].
  destruct (model_validate raw) eqn:Hv; simplify_eq.
  - eapply deduped_yielded; eauto using deduped.
  - rewrite unique_symbols_sample_error.
    eapply deduped_parse_failed; eauto using deduped.
Qed.

Lemma process_records_deduped url asof records : forall p p' trace e,
  process_records url asof records p = (p', trace, e) ->
  deduped (unique_symbols p) trace (unique_symbols p').
Proof.
  induction records as [|raw rest IH]; simpl; intros p p' trace e Hrun.
  - simplify_eq. constructor.
  - destruct (process_record url asof p raw) as [[p1 ev]|] eqn:Hstep;
      [|simplify_eq; constructor].
    destruct (process_records url asof rest p1) as [[p2 tr2] e2] eqn:Hrest.
    simplify_eq.
    apply (deduped_app _ [(raw, ev)] (unique_symbols p1)).
    + by eapply process_record_deduped.
    + by eapply IH.
Qed.

Lemma handle_failure_unique e p c last :
  unique_symbols (progress (handle_failure e p c last).1) = unique_symbols p.
Proof. unfold handle_failure; simpl. by rewrite unique_symbols_sample_error. Qed.

Lemma fetch_page_deduped client asof st st' trace c :
  fetch_page config client asof st = (st', trace, c) ->
  deduped (unique_symbols (progress st)) trace (unique_symbols (progress st')).
Proof.
  unfold fetch_page. intros Hpage.
  destruct (page_result _) as [records page_help|e].
  - destruct (process_records _ _ _ _) as [[p tr] [e|]] eqn:Hrun.
    + pose proof (handle_failure_unique e p 0
        (requested_at (client (page_no (next_page (progress st)))))) as Hu.
      destruct (handle_failure _ _ _ _) as [st1 c1]; simpl in *.
      simplify_eq. rewrite Hu.
      by apply process_records_deduped in Hrun.
    + simplify_eq; simpl. by apply process_records_deduped in Hrun.
  - pose proof (handle_failure_unique e (next_page (progress st))
        (consecutive_empty st)
        (requested_at (client (page_no (next_page (progress st)))))) as Hu.
    destruct (handle_failure _ _ _ _) as [st1 c1]; simpl in *.
    simplify_eq. rewrite Hu. constructor.
Qed.

Lemma fetch_pages_deduped client asof n : forall st st' trace c,
  fetch_pages config n client asof st = (st', trace, c) ->
  deduped (unique_symbols (progress st)) trace (unique_symbols (progress st')).
Proof.
  induction n as [|n IH]; simpl; intros st st' trace c Hrun.
  - simplify_eq. constructor.
  - destruct (fetch_page config client asof st) as [[st1 tr1] [|]] eqn:Hpage.
    + destruct (fetch_pages config n client asof st1) as [[st2 tr2] c2] eqn:Hrest.
      simplify_eq.
      eapply deduped_app; [by eapply fetch_page_deduped|by eapply IH].
    + simplify_eq. by eapply fetch_page_deduped.
Qed.

Lemma fetch_loop_deduped client asof fuel st st' trace :
  fetch_loop config fuel client asof st = Some (st', trace) ->
  deduped (unique_symbols (progress st)) trace (unique_symbols (progress st')).
Proof. intros Hrun%fetch_loop_pages. by eapply fetch_pages_deduped. Qed.

(** The records of a page reach the trace in page order; all of them
    when no exception ends the loop. *)
Lemma process_records_trace url asof records : forall p p' trace e,
  process_records url asof records p = (p', trace, e) ->
  trace.*1 `prefix_of` records /\ (e = None -> trace.*1 = records).
Proof.
  induction records as [|raw rest IH]; simpl; intros p p' trace e Hrun.
  - simplify_eq. split; [apply prefix_nil|done].
  - destruct (process_record url asof p raw) as [[p1 ev]|] eqn:Hstep.
    + destruct (process_records url asof rest p1) as [[p2 tr2] e2] eqn:Hrest.
      simplify_eq. destruct (IH _ _ _ _ Hrest) as [Hpre Hall]. simpl. split.
      * by apply prefix_cons.
      * intros ->. f_equal. by apply Hall.
    + simplify_eq. split; [apply prefix_nil|done].
Qed.

(** C9. In every manifest built by build_manifest the records-seen
    statistic equals the unique-records statistic, both being the
    writer's total count; and in the engine total_records equals the size
    of unique_symbols in every state the loop reaches, after each record
    and after any number of pages of a run. *)
Theorem records_seen_equals_unique :
  (forall exchange asof cfg writer seconds failed errors,
      let m := Storage.build_manifest exchange asof cfg writer seconds
                 failed errors in
      Manifest.total_records (Manifest.stats m) = Storage.get_total_count writer /\
      Manifest.unique_records (Manifest.stats m) = Storage.get_total_count writer /\
      Manifest.total_records (Manifest.stats m)
        = Manifest.unique_records (Manifest.stats m)) /\
  (forall client asof now st c,
      reached config client asof now st c ->
      total_records (progress st) = size (unique_symbols (progress st))) /\
  (forall url asof p raw p' ev,
      total_records p = size (unique_symbols p) ->
      process_record url asof p raw = Ok (p', ev) ->
      total_records p' = size (unique_symbols p')) /\
  (forall n client asof now,
      let st := (iter_raw_records_upto config n client asof now).1.1 in
      total_records (progress st) = size (unique_symbols (progress st))).
Proof.
  split; [by intros|]. split; [|split].
  - intros client asof now st c Hr. by eapply reached_counts.
  - intros url asof p raw p' ev Hp Hrun. by eapply process_record_counts.
  - intros n client asof now. unfold iter_raw_records_upto.
    destruct (fetch_pages config n client asof (initial_state now))
      as [[st trace] c] eqn:Hrun. simpl.
    eapply (reached_counts client asof now st c).
    eapply fetch_pages_reached; [|exact Hrun]. constructor.
Qed.

(** C10. A record whose key is not yet seen and which fails validation
    has its key added to the seen set and the total count incremented all
    the same; in a run, after any number of pages, no earlier record had
    that key, every later record with that key is skipped as a duplicate,
    and no record with that key is yielded. *)
Theorem failed_validation_poisons_key :
  (forall url asof p raw symbol k e,
      _get_symbol raw = Some symbol -> hash_key symbol = Ok k ->
      k ∉ unique_symbols p ->
      model_validate raw = Raise e ->
      exists p',
        process_record url asof p raw = Ok (p', ParseFailed symbol e) /\
        k ∈ unique_symbols p' /\
        total_records p' = S (total_records p)) /\
  (forall n client asof now t1 raw symbol e t2 k,
      (iter_raw_records_upto config n client asof now).1.2
        = (t1 ++ (raw, ParseFailed symbol e) :: t2)%list ->
      business_key raw = Some k ->
      (forall raw1 ev1, (raw1, ev1) ∈ t1 -> business_key raw1 <> Some k) /\
      (forall raw2 ev2, (raw2, ev2) ∈ t2 -> business_key raw2 = Some k ->
                        exists symbol2, ev2 = Duplicate symbol2) /\
      (forall raw' item,
          (raw', Yielded item) ∈ (t1 ++ (raw, ParseFailed symbol e) :: t2)%list ->
          business_key raw' <> Some k)).
Proof.
  split.
  - intros url asof p raw symbol k e Hsym Hk HkS Hv.
    unfold process_record. rewrite Hsym, Hk, Hv.
    rewrite bool_decide_eq_false_2 by done.
    eexists; split; [reflexivity|].
    rewrite unique_symbols_sample_error, total_records_sample_error; simpl.
    split; [set_solver|done].
  - intros n client asof now t1 raw symbol e t2 k Hrun Hkey.
    unfold iter_raw_records_upto in Hrun.
    destruct (fetch_pages _ _ _ _ _) as [[st trace] c] eqn:Hloop.
    simpl in Hrun. simplify_eq.
    apply fetch_pages_deduped in Hloop. simpl in Hloop.
    apply deduped_app_inv in Hloop as (S1 & Hd1 & Hd2).
    inversion Hd2 as [| | | |? ? sym k0 ? ? ? Hsym Hk Hin Hv Hrest]; subst.
    rewrite (business_key_Some _ _ _ Hsym Hk) in Hkey. simplify_eq.
    assert (Hbefore : forall raw1 ev1,
               (raw1, ev1) ∈ t1 -> business_key raw1 <> Some k).
    { intros raw1 ev1 Hel Hkey1. apply Hin.
      by eapply (deduped_keys_seen _ _ _ Hd1). }
    assert (Hafter : forall raw2 ev2,
               (raw2, ev2) ∈ t2 -> business_key raw2 = Some k ->
               exists symbol2, ev2 = Duplicate symbol2).
    { intros raw2 ev2 Hel Hkey2.
      eapply (deduped_seen_duplicate _ _ _ Hrest); [|done..]. set_solver. }
    split; [done|]. split; [done|].
    intros raw' item Hel Hkey'.
    apply elem_of_app in Hel as [Hel|Hel].
    + by eapply Hbefore.
    + apply elem_of_cons in Hel as [Heq|Hel]; [done|].
      destruct (Hafter _ _ Hel Hkey') as [? ?]. done.
Qed.


(** *** Pages: failures, successes and the stop conditions *)

Lemma process_record_pages url asof p raw p' ev :
  process_record url asof p raw = Ok (p', ev) ->
  page_no p' = page_no p /\ failed_pages p' = failed_pages p.
Proof.
  unfold process_record. intros Hrun.
  destruct (_get_symbol raw) as [symbol|]; [|by simplify_eq].
  destruct (hash_key symbol) as [k|]; [|done].
  case_bool_decide; [by simplify_eq|].
  destruct (model_validate raw); simplify_eq; [done|].
  by rewrite page_no_sample_error, failed_pages_sample_error.
Qed.

Lemma process_records_pages url asof records : forall p p' trace e,
  process_records url asof records p = (p', trace, e) ->
  page_no p' = page_no p /\ failed_pages p' = failed_pages p.
Proof.
  induction records as [|raw rest IH]; simpl; intros p p' trace e Hrun.
  - by simplify_eq.
  - destruct (process_record url asof p raw) as [[p1 ev]|] eqn:Hstep;
      [|by simplify_eq].
    destruct (process_records url asof rest p1) as [[p2 tr2] e2] eqn:Hrest.
    simplify_eq.
    destruct (IH _ _ _ _ Hrest) as [-> ->].
    by eapply process_record_pages.
Qed.

(** The record loop runs to its end when every symbol can be hashed. *)
Lemma process_records_completes url asof records : forall p,
  forallb keyed_by_scalar records = true ->
  exists p' trace, process_records url asof records p = (p', trace, None).
Proof.
  induction records as [|raw rest IH]; simpl; intros p Hall; [eauto|].
  apply andb_prop in Hall as [Hraw Hrest].
  assert (Hstep : exists p1 ev, process_record url asof p raw = Ok (p1, ev)).
  { unfold process_record, keyed_by_scalar in *.
    destruct (_get_symbol raw) as [symbol|]; [|eauto].
    destruct symbol; simpl; try done;
      (case_bool_decide; [eauto|]); destruct (model_validate raw); eauto. }
  destruct Hstep as (p1 & ev & ->).
  destruct (IH p1 Hrest) as (p' & trace & ->). eauto.
Qed.

(** A page request that raises: the page is counted as failed, the
    consecutive counter goes up by one, and the loop stops exactly when
    the counter has reached the threshold. *)
Lemma fetch_page_failure client asof st e :
  page_result (client (S (page_no (progress st)))) = PageRaised e ->
  exists st',
    fetch_page config client asof st
      = (st', [],
         if (MAX_CONSECUTIVE_FAILURES <=? S (consecutive_empty st))%nat
         then Break else Continue) /\
    consecutive_empty st' = S (consecutive_empty st) /\
    page_no (progress st') = S (page_no (progress st)) /\
    failed_pages (progress st') = S (failed_pages (progress st)).
Proof.
  intros Hpage. unfold fetch_page. simpl. rewrite Hpage.
  unfold handle_failure. eexists; split; [reflexivity|]. simpl.
  by rewrite page_no_sample_error, failed_pages_sample_error.
Qed.

(** A page request that returns and whose records are all processed: the
    consecutive counter is zero afterwards, and the loop stops exactly
    when [_should_stop] says so. *)
Lemma fetch_page_success client asof st records page_help :
  page_result (client (S (page_no (progress st)))) = PageData records page_help ->
  forallb keyed_by_scalar records = true ->
  exists st' trace,
    fetch_page config client asof st
      = (st', trace,
         if _should_stop config records page_help (progress st') 0
         then Break else Continue) /\
    consecutive_empty st' = 0%nat /\
    page_no (progress st') = S (page_no (progress st)) /\
    failed_pages (progress st') = failed_pages (progress st) /\
    trace.*1 = records.
Proof.
  intros Hpage Hall. unfold fetch_page. simpl. rewrite Hpage.
  destruct (process_records_completes
              (_build_source_url config (S (page_no (progress st)))) asof
              records (next_page (progress st)) Hall) as (p' & trace & Hrun).
  rewrite Hrun.
  exists {| progress := p'; consecutive_empty := 0;
            _last_request_time :=
              requested_at (client (S (page_no (progress st)))) |}, trace.
  split; [reflexivity|]. simpl.
  destruct (process_records_pages _ _ _ _ _ _ _ Hrun) as [-> ->].
  destruct (process_records_trace _ _ _ _ _ _ _ Hrun) as [_ Htr].
  by rewrite Htr.
Qed.

Lemma fetch_page_page_no client asof st :
  page_no (progress (fetch_page config client asof st).1.1)
    = S (page_no (progress st)).
Proof.
  unfold fetch_page.
  destruct (page_result _) as [records page_help|e].
  - destruct (process_records _ _ _ _) as [[p tr] [e|]] eqn:Hrun;
      destruct (process_records_pages _ _ _ _ _ _ _ Hrun) as [Hp _]; simpl.
    + unfold handle_failure; simpl. by rewrite page_no_sample_error.
    + done.
  - unfold handle_failure; simpl. by rewrite page_no_sample_error.
Qed.




Lemma fetch_loop_continue client asof st st1 trace fuel :
  fetch_page config client asof st = (st1, trace, Continue) ->
  fetch_loop config (S fuel) client asof st
    = match fetch_loop config fuel client asof st1 with
      | Some (st', trace') => Some (st', (trace ++ trace')%list)
      | None => None
      end.
Proof.
  intros Hpage. unfold fetch_loop. simpl. rewrite Hpage.
  by destruct (fetch_pages config fuel client asof st1) as [[st2 tr2] [|]].
Qed.

Lemma fetch_loop_break client asof st st1 trace fuel :
  fetch_page config client asof st = (st1, trace, Break) ->
  fetch_loop config (S fuel) client asof st = Some (st1, trace).
Proof. intros Hpage. unfold fetch_loop. simpl. by rewrite Hpage. Qed.



(** *** What is yielded can be normalised *)

Lemma model_validate_checked raw r k :
  model_validate raw = Ok r -> In k declared_fields -> field_ok raw k = true.
Proof.
  unfold model_validate. intros Hv Hin.
  destruct (List.filter _ declared_fields) as [|bad rest] eqn:Hf; [|done].
  destruct (field_ok raw k) eqn:Hk; [done|].
  assert (Hbad : In k (List.filter (fun k => negb (field_ok raw k))
                         declared_fields)).
  { apply filter_In. by rewrite Hk. }
  by rewrite Hf in Hbad.
Qed.

Lemma model_validate_codes raw r :
  model_validate raw = Ok r ->
  A_STOCK_CODE r = field_of raw "A_STOCK_CODE" /\
  B_STOCK_CODE r = field_of raw "B_STOCK_CODE" /\
  COMPANY_CODE r = field_of raw "COMPANY_CODE".
Proof.
  unfold model_validate.
  destruct (List.filter _ declared_fields); [|done].
  by intros [= <-].
Qed.

(** A code field that passed validation: the symbol test of the engine
    and the one of the normaliser agree on it. *)
Lemma usable_symbol_validated raw k :
  field_ok raw k = true ->
  match field_of raw k with
  | Some s =>
      dict_get raw k = PyStr s /\
      usable_symbol (dict_get raw k) = Normalizer.usable_code s
  | None => usable_symbol (dict_get raw k) = false
  end.
Proof.
  unfold field_ok, field_of, str_or_none, dict_get.
  destruct (raw !! k) as [[]|]; simpl; done.
Qed.

(** A record that was yielded has a string symbol, and the normaliser
    picks that same symbol. *)
Lemma validated_symbol raw r symbol :
  model_validate raw = Ok r ->
  _get_symbol raw = Some symbol ->
  exists s, symbol = PyStr s /\ Normalizer.spec_symbol r = Some s /\
            business_key raw = Some (KStr s).
Proof.
  intros Hv Hsym.
  destruct (model_validate_codes raw r Hv) as (Ha & Hb & Hc).
  pose proof (usable_symbol_validated raw "A_STOCK_CODE"
                (model_validate_checked raw r "A_STOCK_CODE" Hv
                   ltac:(simpl; tauto))) as Ua.
  pose proof (usable_symbol_validated raw "B_STOCK_CODE"
                (model_validate_checked raw r "B_STOCK_CODE" Hv
                   ltac:(simpl; tauto))) as Ub.
  pose proof (usable_symbol_validated raw "COMPANY_CODE"
                (model_validate_checked raw r "COMPANY_CODE" Hv
                   ltac:(simpl; tauto))) as Uc.
  unfold business_key. rewrite Hsym.
  unfold Normalizer.spec_symbol. rewrite Ha, Hb, Hc.
  unfold _get_symbol in Hsym. simpl.
  destruct (field_of raw "A_STOCK_CODE") as [sa|];
    [destruct Ua as [Ea Ua]; rewrite Ua in Hsym;
     destruct (Normalizer.usable_code sa);
     [simplify_eq; rewrite Ea; eauto|]
    |rewrite Ua in Hsym].
  all: destruct (field_of raw "B_STOCK_CODE") as [sb|];
    [destruct Ub as [Eb Ub]; rewrite Ub in Hsym;
     destruct (Normalizer.usable_code sb);
     [simplify_eq; rewrite Eb; eauto|]
    |rewrite Ub in Hsym].
  all: destruct (field_of raw "COMPANY_CODE") as [sc|];
    [destruct Uc as [Ec Uc]; rewrite Uc in Hsym;
     destruct (Normalizer.usable_code sc);
     [simplify_eq; rewrite Ec; eauto|done]
    |rewrite Uc in Hsym; done].
Qed.

(** *** Termination *)

Lemma should_stop_false_pages records page_help p c :
  _should_stop config records page_help p c = false ->
  (page_no p < MAX_PAGES)%nat.
Proof.
  unfold _should_stop. intros Hstop.
  repeat case_match; try done.
  all: match goal with
       | Hle : (MAX_PAGES <=? _)%nat = false |- _ => by apply Nat.leb_gt in Hle
       end.
Qed.

Lemma fetch_page_head_ok client asof st st' trace :
  scalar_keys client ->
  head_ok st ->
  fetch_page config client asof st = (st', trace, Continue) ->
  head_ok st'.
Proof.
  unfold head_ok, MAX_CONSECUTIVE_FAILURES, MAX_PAGES.
  intros Hkeys [Hc Hp] Hpage.
  destruct (page_result (client (S (page_no (progress st)))))
    as [records page_help|e] eqn:Hres.
  - destruct (fetch_page_success client asof st records page_help Hres
                (Hkeys _ _ _ Hres))
      as (st1 & tr1 & Hstep & Hc1 & Hp1 & _).
    rewrite Hstep in Hpage.
    destruct (_should_stop config records page_help (progress st1) 0)
      eqn:Hstop; simplify_eq.
    apply should_stop_false_pages in Hstop.
    unfold MAX_PAGES in Hstop. lia.
  - destruct (fetch_page_failure client asof st e Hres)
      as (st1 & Hstep & Hc1 & Hp1 & _).
    rewrite Hstep in Hpage.
    destruct (MAX_CONSECUTIVE_FAILURES <=? S (consecutive_empty st))%nat
      eqn:Hk; simplify_eq.
    apply Nat.leb_gt in Hk. unfold MAX_CONSECUTIVE_FAILURES in Hk. lia.
Qed.

Lemma fetch_loop_terminates_from client asof :
  scalar_keys client ->
  forall fuel st,
    head_ok st ->
    (MAX_PAGES + MAX_CONSECUTIVE_FAILURES - 1 <= page_no (progress st) + fuel)%nat ->
    exists st' trace, fetch_loop config fuel client asof st = Some (st', trace).
Proof.
  intros Hkeys. induction fuel as [|fuel IH]; intros st Hst Hfuel.
  - destruct Hst as [Hc Hp].
    unfold MAX_CONSECUTIVE_FAILURES, MAX_PAGES in *. lia.
  - destruct (fetch_page config client asof st) as [[st1 tr1] [|]] eqn:Hpage.
    + pose proof (fetch_page_page_no client asof st) as Hno.
      rewrite Hpage in Hno. simpl in Hno.
      destruct (IH st1) as (st' & trace & Hrun).
      * by eapply fetch_page_head_ok.
      * lia.
      * rewrite (fetch_loop_continue _ _ _ _ _ _ Hpage), Hrun. eauto.
    + rewrite (fetch_loop_break _ _ _ _ _ _ Hpage). eauto.
Qed.

(** When no record has a symbol that cannot be hashed, the pagination
    loop ends within MAX_PAGES + MAX_CONSECUTIVE_FAILURES - 1 pages. *)
Lemma iter_raw_records_terminates client asof now fuel :
  scalar_keys client ->
  (MAX_PAGES + MAX_CONSECUTIVE_FAILURES - 1 <= fuel)%nat ->
  exists st trace,
    iter_raw_records config fuel client asof now = Some (st, trace).
Proof.
  intros Hkeys Hfuel. unfold iter_raw_records.
  apply fetch_loop_terminates_from; [done| |].
  - unfold head_ok, MAX_CONSECUTIVE_FAILURES, MAX_PAGES; simpl. lia.
  - unfold MAX_CONSECUTIVE_FAILURES, MAX_PAGES in *.
    cbn [page_no progress initial_state new_progress]. lia.
Qed.

End Engine.

(** *** Closed instances *)

Import Sample Examples.



Lemma failed_validation_poisons_key_witness :
  (forall raw1 ev1, (raw1, ev1) ∈ ([] : Trace) ->
                    business_key raw1 <> Some (KStr "600000")) /\
  (forall raw2 ev2,
      (raw2, ev2) ∈ [ (listing_600000, Duplicate (PyStr "600000")) ] ->
      business_key raw2 = Some (KStr "600000") ->
      exists symbol2, ev2 = Duplicate symbol2) /\
  (forall raw' item,
      (raw', Yielded item) ∈ ([] ++ trace_poisoned)%list ->
      business_key raw' <> Some (KStr "600000")).
Proof.
  apply (proj2 (@failed_validation_poisons_key Sample.builtins default_config)
           5%nat client_poisoned 0%Z 0%Q [] listing_numbered
           (PyStr "600000") (ValidationError ["NUM"]) _ (KStr "600000")).
  - reflexivity.
  - reflexivity.
Defined.

Lemma records_seen_equals_unique_witness :
  reached default_config client_repeated 0%Z 0%Q final_repeated Break /\
  total_records (progress final_repeated)
    = size (unique_symbols (progress final_repeated)).
Proof.
  assert (Hr : reached default_config client_repeated 0%Z 0%Q
                 final_repeated Break).
  { eapply reached_page; [apply reached_start|reflexivity]. }
  split; [exact Hr|].
  exact (proj1 (proj2 (@records_seen_equals_unique Sample.builtins
           default_config)) client_repeated 0%Z 0%Q final_repeated Break Hr).
Defined.



End FetcherProps.
Module ClientProps.
Import Config Client ClientSpec.

(** *** Unwrapping *)










(** *** Retrying *)

Lemma sent_rate_limit cfg last now : sent (_rate_limit cfg last now) = [].
Proof. unfold _rate_limit. by repeat case_match. Qed.

Lemma backoffs_rate_limit cfg last now :
  backoffs (_rate_limit cfg last now) = [].
Proof. unfold _rate_limit. by repeat case_match. Qed.

Lemma sent_app a b : sent (a ++ b)%list = (sent a ++ sent b)%list.
Proof. apply omap_app. Qed.

Lemma backoffs_app a b :
  backoffs (a ++ b)%list = (backoffs a ++ backoffs b)%list.
Proof. apply omap_app. Qed.

Lemma sent_attempt cfg last now n :
  sent (_rate_limit cfg last now ++ [Sent n])%list = [n].
Proof. by rewrite sent_app, sent_rate_limit. Qed.

Lemma backoffs_attempt cfg last now n :
  backoffs (_rate_limit cfg last now ++ [Sent n])%list = [].
Proof. by rewrite backoffs_app, backoffs_rate_limit. Qed.

(** The case of the retry loop that ends with the attempt it starts
    with. *)
Ltac single_attempt :=
  cbn [fst snd]; rewrite sent_attempt, backoffs_attempt;
  repeat split; try done; try lia; intros; lia.

(** What a call of the retry loop does, seen from its first attempt
    number: it makes [n] attempts, all but the last one failing with a
    transient error, and returns what the last one gave. *)
Lemma retry_call_spec cfg world : forall remaining first last,
  exists n,
    (1 <= n <= S remaining)%nat /\
    sent (retry_call cfg world remaining first last).1.2 = seq first n /\
    backoffs (retry_call cfg world remaining first last).1.2
      = map (wait_exponential (backoff_multiplier (retry cfg))
               (initial_delay (retry cfg)))
            (seq first (n - 1)) /\
    (retry_call cfg world remaining first last).2
      = outcome (world (first + n - 1)%nat) /\
    (retry_call cfg world remaining first last).1.1
      = clock_sent (world (first + n - 1)%nat) /\
    (forall i, (first <= i < first + n - 1)%nat ->
               exists e, outcome (world i) = Raise e /\
                         (e = TimeoutException \/ e = NetworkError)) /\
    ((n <= remaining)%nat ->
     match outcome (world (first + n - 1)%nat) with
     | Ok _ => True
     | Raise e => retry_if_exception_type e = false
     end).
Proof.
  induction remaining as [|remaining IH]; intros first last.
  - exists 1%nat. cbn [retry_call]. unfold _do_request.
    replace (first + 1 - 1)%nat with first by lia.
    destruct (outcome (world first)) as [response|e] eqn:Hout;
      [|destruct (retry_if_exception_type e)];
      single_attempt.
  - cbn [retry_call]. unfold _do_request.
    destruct (outcome (world first)) as [response|e] eqn:Hout.
    + exists 1%nat. replace (first + 1 - 1)%nat with first by lia.
      rewrite Hout. single_attempt.
    + destruct (retry_if_exception_type e) eqn:Hretry.
      * destruct (IH (S first) (clock_sent (world first)))
          as (n & Hn & Hsent & Hback & Hres & Hlast & Hbefore & Hstop).
        destruct (retry_call cfg world remaining (S first)
                    (clock_sent (world first))) as [[last' effects'] r'].
        cbn [fst snd] in *. exists (S n).
        replace (first + S n - 1)%nat with (S first + n - 1)%nat by lia.
        rewrite sent_app, backoffs_app, sent_attempt, backoffs_attempt.
        change (sent (BackoffSleep ?w :: effects')) with (sent effects').
        change (backoffs (BackoffSleep ?w :: effects'))
          with (w :: backoffs effects').
        rewrite Hsent, Hback.
        split; [lia|]. split; [reflexivity|]. split.
        { assert (Hn1 : (S n - 1 = S (n - 1))%nat) by lia.
          rewrite Hn1. reflexivity. }
        split; [done|]. split; [done|]. split.
        { intros i Hi. destruct (decide (i = first)) as [->|Hne].
          - exists e. split; [done|].
            destruct e; simpl in Hretry; try discriminate; auto.
          - apply Hbefore. lia. }
        intros Hle. apply Hstop. lia.
      * exists 1%nat. replace (first + 1 - 1)%nat with first by lia.
        rewrite Hout. single_attempt.
Qed.

(** C7, as amended.  _make_request makes at least one and at most
    max_attempts attempts; it goes on to another attempt only after a
    TimeoutException or a NetworkError, so an HTTP-status error ends the
    call at once, and whatever the last attempt gave, response or
    failure, is what the caller gets; before the attempt after the n-th
    failed one it waits backoff_multiplier * 2^(n-1) seconds, but at least
    initial_delay and at most tenacity's MAX_WAIT; decoding the body in
    query_page happens after the call and causes no further request. *)
Theorem retry_policy `{PyBuiltins} (cfg : SseConfig) (world : nat -> Attempt)
    (last : Q) (callback_name : text) :
  exists n,
    (1 <= n <= Nat.max 1 (max_attempts (retry cfg)))%nat /\
    sent (_make_request cfg world last).1.2 = seq 1 n /\
    (forall i, (1 <= i < n)%nat ->
               exists e, outcome (world i) = Raise e /\
                         (e = TimeoutException \/ e = NetworkError)) /\
    (forall i status, (1 <= i <= n)%nat ->
                      outcome (world i) = Raise (HTTPStatusError status) ->
                      i = n) /\
    (_make_request cfg world last).2 = outcome (world n) /\
    ((n < max_attempts (retry cfg))%nat ->
     match outcome (world n) with
     | Ok _ => True
     | Raise e => e <> TimeoutException /\ e <> NetworkError
     end) /\
    backoffs (_make_request cfg world last).1.2
      = map (fun i =>
               Qmax (Qmax 0 (initial_delay (retry cfg)))
                 (Qmin (backoff_multiplier (retry cfg)
                        * inject_Z (2 ^ (Z.of_nat i - 1)))%Q MAX_WAIT))
            (seq 1 (n - 1)) /\
    (query_page cfg callback_name world last).1.2
      = (_make_request cfg world last).1.2 /\
    (forall body e,
        (_make_request cfg world last).2 = Ok body ->
        _parse_jsonp body callback_name = Raise e ->
        (query_page cfg callback_name world last).2 = Raise e).
Proof.
  unfold _make_request.
  destruct (retry_call_spec cfg world (max_attempts (retry cfg) - 1) 1 last)
    as (n & Hn & Hsent & Hback & Hres & _ & Hbefore & Hstop).
  replace (1 + n - 1)%nat with n in * by lia.
  exists n. split; [lia|]. split; [done|]. split.
  { intros i Hi. apply Hbefore. lia. }
  split.
  { intros i status Hi Hout.
    destruct (decide (i = n)) as [|Hne]; [done|].
    destruct (Hbefore i) as (e & He & [->| ->]); [lia|congruence..]. }
  split; [done|]. split.
  { intros Hlt. assert (Hle : (n <= max_attempts (retry cfg) - 1)%nat) by lia.
    specialize (Hstop Hle).
    destruct (outcome (world n)) as [|e]; [done|].
    split; intros ->; discriminate. }
  split; [exact Hback|].
  unfold query_page, _make_request.
  destruct (retry_call cfg world (max_attempts (retry cfg) - 1) 1 last)
    as [[last' effects] r].
  split; [done|].
  intros body e Hr Hparse. cbn [fst snd] in *. by rewrite Hr, Hparse.
Qed.

(** *** Closed instances *)

Import Sample Examples.

(** C7 as stated fails: with the default settings (initial_delay 1,
    backoff_multiplier 2) and two timed-out attempts, the waits are 2 and
    4 seconds; the first wait is not initial_delay. *)
Lemma backoff_is_not_geometric :
  backoffs (_make_request default_config world_two_timeouts 0).1.2
    = [2; 4]%Q /\
  geometric_backoff default_config 1 = 1%Q /\
  ~ (2 == geometric_backoff default_config 1)%Q.
Proof.
  split; [reflexivity|]. split; [reflexivity|].
  unfold Qeq; simpl. lia.
Qed.

Lemma retry_policy_witness :
  exists n,
    (1 <= n <= 3)%nat /\
    sent (_make_request default_config world_two_timeouts 0).1.2 = seq 1 n /\
    (_make_request default_config world_two_timeouts 0).2
      = outcome (world_two_timeouts n).
Proof.
  destruct (@retry_policy Sample.builtins default_config world_two_timeouts
              0%Q (text_of_string "jsonpCallback12345678"))
    as (n & Hn & Hsent & _ & _ & Hres & _).
  exists n. split; [exact Hn|]. split; [exact Hsent|exact Hres].
Defined.


End ClientProps.

Module StorageProps.
Import Config Fetcher Storage Cli.

(** No header named Cookie, in any letter case, is left by
    [get_safe_headers]. *)
Lemma safe_headers_no_cookie (cfg : SseConfig) (k v : string) :
  (k, v) ∈ get_safe_headers cfg -> lower k <> "cookie".
Proof.
  unfold get_safe_headers. intros Hel.
  apply list_elem_of_In, filter_In in Hel as [_ Hk]. simpl in Hk.
  intros Heq. rewrite Heq in Hk. done.
Qed.

(** Every other header is kept as it is. *)
Lemma safe_headers_keep (cfg : SseConfig) (k v : string) :
  (k, v) ∈ headers cfg -> lower k <> "cookie" ->
  (k, v) ∈ get_safe_headers cfg.
Proof.
  unfold get_safe_headers. intros Hel Hk.
  apply list_elem_of_In, filter_In. split; [by apply list_elem_of_In|].
  simpl. destruct (String.eqb_spec (lower k) "cookie"); done.
Qed.

(** The pages statistic of a written manifest is 0 or 1. *)
Lemma manifest_total_pages_le_1 `{PyBuiltins} fuel config client asof now
    seconds stock_type page_size include_raw run :
  fetch_universe fuel config client asof now seconds stock_type page_size
    include_raw = Some run ->
  (Manifest.total_pages (Manifest.stats (manifest run)) <= 1)%nat.
Proof.
  unfold fetch_universe.
  destruct (iter_raw_records _ _ _ _ _) as [[st trace]|]; [|done].
  destruct (foldl _ _ _) as [[writer total] errors].
  intros; simplify_eq; simpl. case_match; lia.
Qed.

(** *** Closed instances *)

Import Sample Examples.

(** C5 fails on the code: the engine requests two pages (page_no is 2, and
    get_progress_stats would report 2), and the manifest says 1. *)
Theorem manifest_pages_not_engine_pages :
  let run :=
    fetch_universe 5 default_config client_two_pages 0%Z 0 1 "1" 2 false in
  (fun r => page_no (progress (engine r))) <$> run = Some 2%nat /\
  (fun r => stats_total_pages (get_progress_stats (progress (engine r)) 1))
    <$> run = Some 2%nat /\
  (fun r => Manifest.total_pages (Manifest.stats (manifest r))) <$> run
    = Some 1%nat /\
  (fun r => Manifest.total_records (Manifest.stats (manifest r))) <$> run
    = Some 3%nat.
Proof. repeat split; reflexivity. Qed.

(** C6 fails on the code: the Cookie header is dropped from the manifest
    that is written, the Authorization header and its bearer token are
    not. *)
Theorem manifest_keeps_authorization :
  let written :=
    write_manifest
      (build_manifest "Shanghai_Stocks" 0%Z config_with_credentials
         (open_writer "Shanghai_Stocks") 1 0 []) in
  (list_to_map written : gmap string pyval) !! "headers"
    = Some (PyDict [ ("User-Agent", PyStr "stock-bot");
                     ("Authorization", PyStr "Bearer s3cr3t") ]) /\
  (list_to_map written : gmap string pyval) !! "cookies" = None.
Proof. split; reflexivity. Qed.

End StorageProps.

(** ** Further properties of the writer and the configuration *)

Module StorageFacts.
Import Config Stock Storage StorageSpec.

(** *** [_safe_filename] *)

Lemma safe_filename_length (s : string) :
  String.length (_safe_filename s) = String.length s.
Proof. induction s as [|c s IH]; simpl; congruence. Qed.

Lemma safe_filename_chars (s : string) (c : Ascii.ascii) :
  In c (String.list_ascii_of_string (_safe_filename s)) -> ~ unsafe c.
Proof.
  unfold unsafe. induction s as [|a s IH]; simpl; [done|].
  intros [<-|Hin]; [|by apply IH].
  case_bool_decide as Ha; [|done].
  by apply (proj1 (bool_decide_eq_false _)).
Qed.

Lemma safe_filename_fixed (s : string) :
  (forall c, In c (String.list_ascii_of_string s) -> ~ unsafe c) ->
  _safe_filename s = s.
Proof.
  unfold unsafe. induction s as [|a s IH]; simpl; [done|].
  intros Hsafe. rewrite IH by (intros c Hc; apply Hsafe; by right).
  case_bool_decide as Ha; [|done].
  exfalso. apply (Hsafe a); [by left|done].
Qed.

(** X1. _safe_filename keeps the length of the name, leaves none of the
    nine path-unsafe characters in it, changes nothing in a name that
    holds none of them, and is idempotent. *)
Theorem safe_filename_sanitises (s : string) :
  String.length (_safe_filename s) = String.length s /\
  (forall c, In c (String.list_ascii_of_string (_safe_filename s)) ->
             ~ unsafe c) /\
  ((forall c, In c (String.list_ascii_of_string s) -> ~ unsafe c) ->
   _safe_filename s = s) /\
  _safe_filename (_safe_filename s) = _safe_filename s.
Proof.
  split; [apply safe_filename_length|].
  split; [apply safe_filename_chars|].
  split; [apply safe_filename_fixed|].
  apply safe_filename_fixed, safe_filename_chars.
Qed.

(** *** [write_record] *)

Lemma written_snoc exchange rs r :
  written exchange (rs ++ [r]) = write_record r (written exchange rs).
Proof. unfold written. by rewrite foldl_app. Qed.

Lemma of_category_snoc category rs r :
  of_category category (rs ++ [r])
  = (of_category category rs
     ++ if String.eqb (Stock.category r) category then [r] else [])%list.
Proof. unfold of_category. by rewrite List.filter_app. Qed.

Lemma written_exchange exchange rs :
  Storage.exchange (written exchange rs) = exchange.
Proof.
  induction rs as [|r rs IH] using rev_ind; [done|].
  by rewrite written_snoc.
Qed.

(** What a writer holds after any sequence of writes. *)
Lemma written_state exchange rs :
  _total_count (written exchange rs) = length rs /\
  (forall category,
      default 0%nat (_category_counts (written exchange rs) !! category)
      = length (of_category category rs)) /\
  (forall category,
      _file_handles (written exchange rs) !! category
      = match of_category category rs with
        | [] => None
        | lines => Some (file_path exchange category, lines)
        end) /\
  (forall category,
      is_Some (_category_counts (written exchange rs) !! category) <->
      of_category category rs <> []).
Proof.
  induction rs as [|r rs (Htotal & Hcount & Hfile & Hdom)] using rev_ind.
  - unfold written, of_category; simpl.
    split; [done|]. split; [done|]. split; [done|].
    intros category. rewrite lookup_empty. split; [by intros [x Hx]|done].
  - rewrite written_snoc. unfold write_record. cbn [_total_count
      _category_counts _file_handles]. rewrite written_exchange.
    split; [rewrite length_app; simpl; lia|].
    split; [|split].
    + intros category. rewrite of_category_snoc, length_app.
      destruct (String.eqb_spec (Stock.category r) category) as [<-|Hne].
      * rewrite lookup_insert_eq. simpl. rewrite Hcount. lia.
      * rewrite lookup_insert_ne by done. rewrite Hcount. simpl. lia.
    + intros category. rewrite of_category_snoc.
      destruct (String.eqb_spec (Stock.category r) category) as [<-|Hne].
      * rewrite lookup_insert_eq, Hfile.
        destruct (of_category (Stock.category r) rs); reflexivity.
      * rewrite lookup_insert_ne by done. rewrite Hfile, app_nil_r. done.
    + intros category. rewrite of_category_snoc.
      destruct (String.eqb_spec (Stock.category r) category) as [<-|Hne].
      * rewrite lookup_insert_eq. split; [|by eauto].
        intros _. by destruct (of_category (Stock.category r) rs).
      * rewrite lookup_insert_ne by done. by rewrite Hdom, app_nil_r.
Qed.

(** X2. After any sequence of write_record calls on a fresh writer, the
    total count is the number of records written, the count of each
    category is the number of records written with that category, and a
    category has a count exactly when a record of it was written. *)
Theorem writer_counts (exchange : string) (rs : list StockRecord) :
  get_total_count (written exchange rs) = length rs /\
  (forall category,
      default 0%nat (get_stats (written exchange rs) !! category)
      = length (of_category category rs)) /\
  (forall category,
      is_Some (get_stats (written exchange rs) !! category) <->
      exists r, r ∈ rs /\ Stock.category r = category).
Proof.
  destruct (written_state exchange rs) as (Htotal & Hcount & _ & Hdom).
  split; [done|]. split; [done|].
  intros category. unfold get_stats. rewrite Hdom. unfold of_category. split.
  - intros Hne.
    destruct (List.filter _ rs) as [|r rest] eqn:Hf; [done|].
    assert (Hin : In r (List.filter
              (fun r => String.eqb (Stock.category r) category) rs))
      by (rewrite Hf; by left).
    apply filter_In in Hin as [Hin Hc]. apply String.eqb_eq in Hc.
    exists r. split; [by apply list_elem_of_In|done].
  - intros (r & Hin & Hc) Hf.
    assert (Hin' : In r (List.filter
              (fun r => String.eqb (Stock.category r) category) rs)).
    { apply filter_In. split; [by apply list_elem_of_In|].
      by apply String.eqb_eq. }
    by rewrite Hf in Hin'.
Qed.


(** *** [get_output_files] *)

#[local] Instance str_le_total : Total str_le.
Proof.
  intros a b. unfold str_le.
  destruct (String.leb_total a b) as [-> | ->]; [by left|by right].
Qed.

(** X4. get_output_files returns the paths in ascending order, one for
    each category that has a count, and nothing else. *)
Theorem output_files_sorted (w : SnapshotWriter) :
  Sorted str_le (get_output_files w) /\
  length (get_output_files w) = size (_category_counts w) /\
  (forall path,
      path ∈ get_output_files w <->
      exists category,
        is_Some (_category_counts w !! category) /\
        path = file_path (exchange w) category).
Proof.
  unfold get_output_files. split; [apply Sorted_merge_sort, _|]. split.
  - rewrite merge_sort_Permutation, length_map. apply length_map_to_list.
  - intros path. rewrite merge_sort_Permutation, list_elem_of_fmap. split.
    + intros ([category n] & -> & Hel). apply elem_of_map_to_list in Hel.
      exists category. split; [by eexists|done].
    + intros (category & [n Hn] & ->). exists (category, n).
      split; [done|]. by apply elem_of_map_to_list.
Qed.

(** *** [get_safe_headers] and [build_cookie_header] *)

Lemma lower_idempotent (s : string) : lower (lower s) = lower s.
Proof.
  induction s as [|c s IH]; simpl; [done|]. rewrite IH. f_equal.
  unfold lower_char.
  destruct ((65 <=? Ascii.nat_of_ascii c)%nat && (Ascii.nat_of_ascii c <=? 90)%nat)
    eqn:Hc; [|by rewrite Hc].
  apply andb_prop in Hc as [H1%Nat.leb_le H2%Nat.leb_le].
  rewrite Ascii.nat_ascii_embedding by lia.
  destruct (65 <=? _)%nat eqn:Ha; simpl; [|done].
  destruct (_ <=? 90)%nat eqn:Hb; [|done].
  apply Nat.leb_le in Hb. lia.
Qed.


Lemma append_empty (a b : string) : a ++ b = "" -> a = "" /\ b = "".
Proof. destruct a; simpl; [done|discriminate]. Qed.

Lemma concat_empty (sep : string) (l : list string) :
  (forall x, In x l -> x <> "") -> String.concat sep l = "" -> l = [].
Proof.
  destruct l as [|x [|y l]]; simpl; [done|..].
  - intros Hne Hx. exfalso. apply (Hne x); [by left|done].
  - intros Hne Hx. apply append_empty in Hx as [Hx _].
    exfalso. apply (Hne x); [by left|done].
Qed.

Lemma cookie_header_empty (cfg : SseConfig) :
  build_cookie_header cfg = "" <-> cookies cfg = [].
Proof.
  unfold build_cookie_header. split.
  - intros Hc.
    apply concat_empty in Hc; [by destruct (cookies cfg)|].
    intros x Hx. apply in_map_iff in Hx as ([k v] & <- & _). simpl.
    intros Hkv. apply append_empty in Hkv as [_ Hkv]. discriminate.
  - by intros ->.
Qed.

End StorageFacts.

(** ** Further properties of the client *)

Module ClientFacts.
Import Config Client ClientSpec.

(** *** [_rate_limit] *)


(** *** Wrapping and unwrapping *)






(** *** [get_page_data] *)

(** X8. When get_page_data returns, the response was a JSON object whose
    pageHelp entry is the object returned as metadata, and the records
    are that object's data entry, or the empty list when the entry is
    missing or null; the records are never None.  When query_page raises,
    get_page_data raises the same exception, and it sends no request of
    its own. *)
Theorem page_data_edges `{PyBuiltins} (cfg : SseConfig) (callback_name : text)
    (world : nat -> Attempt) (last : Q) :
  (get_page_data cfg callback_name world last).1
    = (query_page cfg callback_name world last).1 /\
  match (get_page_data cfg callback_name world last).2 with
  | Ok (records, page_help) =>
      records <> PyNone /\
      exists fields items,
        (query_page cfg callback_name world last).2 = Ok (PyDict fields) /\
        existsb (fun kv => String.eqb kv.1 "pageHelp") fields = true /\
        py_get (PyDict fields) "pageHelp" (PyDict []) = Ok page_help /\
        page_help = PyDict items /\
        records = match List.find (fun kv => String.eqb kv.1 "data") items with
                  | Some (_, PyNone) | None => PyList []
                  | Some (_, v) => v
                  end
  | Raise e =>
      (query_page cfg callback_name world last).2 = Raise e \/
      exists response,
        (query_page cfg callback_name world last).2 = Ok response /\
        (is_object response = false \/
         exists page_help,
           py_get response "pageHelp" (PyDict []) = Ok page_help /\
           is_object page_help = false)
  end.
Proof.
  unfold get_page_data.
  assert (Hq : forall data,
    (query_page cfg callback_name world last).2 = Ok data ->
    lacks_page_help data = Ok false).
  { unfold query_page.
    destruct (_make_request cfg world last) as [[l f] [body|e]]; simpl;
      [|done].
    destruct (_parse_jsonp body callback_name) as [d|e]; [|done].
    destruct (lacks_page_help d) as [[|]|e] eqn:Hl; [done| |done].
    by intros data [= <-]. }
  destruct (query_page cfg callback_name world last)
    as [[last' effects] [response|e]]; simpl in *; [|by split; [|left]].
  split; [done|].
  specialize (Hq response eq_refl).
  destruct response as [| | | | |fields|fields]; simpl;
    try (right; eexists; split; [reflexivity|by left]).
  destruct (List.find (fun kv => String.eqb kv.1 "pageHelp") fields)
    as [[k page_help]|] eqn:Hfind; simpl.
  - destruct page_help as [| | | | | |items]; simpl;
      try (right; eexists; split; [reflexivity|right];
           eexists; split; [simpl; by rewrite Hfind|done]).
    simpl in Hq. injection Hq as Hq. apply negb_false_iff in Hq.
    split.
    + destruct (List.find _ items) as [[k' []]|]; done.
    + exists fields, items. rewrite Hfind. simpl.
      repeat split; try done.
      by destruct (List.find _ items) as [[k' []]|].
  - simpl in Hq. injection Hq as Hq. apply negb_false_iff in Hq.
    apply existsb_exists in Hq as (kv & Hin & Hk).
    exfalso.
    pose proof (find_none _ _ Hfind kv Hin) as Hnone. simpl in Hnone.
    congruence.
Qed.

(** *** [_get_client] *)

Lemma dict_set_find (k v : string) (d : list (string * string)) :
  List.find (fun kv => String.eqb kv.1 k) (dict_set k v d) = Some (k, v).
Proof.
  induction d as [|[k' v'] d IH]; simpl.
  - by rewrite String.eqb_refl.
  - destruct (String.eqb k' k) eqn:Hk; simpl.
    + by rewrite String.eqb_refl.
    + by rewrite Hk.
Qed.

Lemma dict_set_other (k v : string) (d : list (string * string))
    (k' v' : string) :
  k' <> k -> (k', v') ∈ dict_set k v d <-> (k', v') ∈ d.
Proof.
  intros Hne. induction d as [|[k0 v0] d IH]; simpl.
  - rewrite list_elem_of_singleton. split; [congruence|].
    intros Hel. by apply elem_of_nil in Hel.
  - destruct (String.eqb_spec k0 k) as [->|Hk].
    + rewrite !elem_of_cons. split; (intros [Heq|Hel]; [congruence|by right]).
    + rewrite !elem_of_cons, IH. done.
Qed.

Lemma dict_set_safe (v : string) (d : list (string * string)) :
  List.filter (fun kv => negb (String.eqb (lower kv.1) "cookie"))
    (dict_set "Cookie" v d)
  = List.filter (fun kv => negb (String.eqb (lower kv.1) "cookie")) d.
Proof.
  induction d as [|[k0 v0] d IH]; [done|].
  cbn [dict_set]. destruct (String.eqb_spec k0 "Cookie") as [->|Hk].
  - reflexivity.
  - cbn [List.filter]. by rewrite IH.
Qed.

(** X9. build_cookie_header gives the empty string exactly when no cookie
    is configured, and name=value for a single cookie.  So _get_client
    sends the configured headers as they are when there are no cookies,
    and otherwise sets the header Cookie to the built string and leaves
    every other header alone; and what get_safe_headers reports is what
    the client sends, less the headers named cookie in any letter case. *)
Theorem client_cookie_header (cfg : SseConfig) :
  (build_cookie_header cfg = "" <-> cookies cfg = []) /\
  (forall k v, cookies cfg = [(k, v)] ->
               build_cookie_header cfg = k ++ "=" ++ v) /\
  (cookies cfg = [] -> _get_client cfg = headers cfg) /\
  (cookies cfg <> [] ->
   List.find (fun kv => String.eqb kv.1 "Cookie") (_get_client cfg)
   = Some ("Cookie", build_cookie_header cfg)) /\
  (forall k v, k <> "Cookie" ->
               (k, v) ∈ _get_client cfg <-> (k, v) ∈ headers cfg) /\
  List.filter (fun kv => negb (String.eqb (lower kv.1) "cookie"))
    (_get_client cfg) = get_safe_headers cfg.
Proof.
  pose proof (StorageFacts.cookie_header_empty cfg) as Hempty.
  split; [done|]. split.
  { intros k v Hc. unfold build_cookie_header. by rewrite Hc. }
  unfold _get_client, get_safe_headers.
  destruct (String.eqb_spec (build_cookie_header cfg) "") as [Hc|Hc]; simpl.
  - split; [done|]. split; [|done].
    intros Hne. by apply Hempty in Hc.
  - split; [|split; [|split]].
    + intros Hnil. by apply Hempty in Hnil.
    + intros _. apply dict_set_find.
    + intros k v Hk. by apply dict_set_other.
    + apply dict_set_safe.
Qed.

(** *** The request parameters of [query_page] *)

Lemma params_pagination (cfg : SseConfig) (callback_name : text)
    (timestamp : Z) (page_no : nat) (k : string) (v : ParamValue) :
  (list_to_map
     [ ("pageHelp.pageNo", ParamInt (Z.of_nat page_no));
       ("pageHelp.pageSize", ParamInt (page_size (pagination cfg)));
       ("pageHelp.beginPage", ParamInt (Z.of_nat page_no));
       ("pageHelp.endPage", ParamInt (Z.of_nat page_no));
       ("pageHelp.cacheSize", ParamInt (cache_size (pagination cfg))) ]
   : gmap string ParamValue) !! k = Some v ->
  query_page_params cfg callback_name timestamp page_no !! k = Some v.
Proof. intros Hk. unfold query_page_params. by apply lookup_union_Some_l. Qed.

Lemma params_other (cfg : SseConfig) (callback_name : text)
    (timestamp : Z) (page_no : nat) (k : string) :
  k ∉ pagination_keys ->
  query_page_params cfg callback_name timestamp page_no !! k
  = match filters cfg !! k with
    | Some v => Some (ParamStr v)
    | None =>
        match query cfg !! k with
        | Some v => Some (ParamStr v)
        | None =>
            if String.eqb k "_" then Some (ParamInt timestamp)
            else if String.eqb k (param_name (jsonp cfg))
                 then Some (ParamText callback_name)
                 else None
        end
    end.
Proof.
  intros Hk. unfold query_page_params.
  rewrite lookup_union_r by (by apply not_elem_of_list_to_map_1).
  destruct (filters cfg !! k) as [v|] eqn:Hf.
  { apply lookup_union_Some_l. by rewrite lookup_fmap, Hf. }
  rewrite lookup_union_r by (by rewrite lookup_fmap, Hf).
  destruct (query cfg !! k) as [v|] eqn:Hq.
  { apply lookup_union_Some_l. by rewrite lookup_fmap, Hq. }
  rewrite lookup_union_r by (by rewrite lookup_fmap, Hq).
  destruct (String.eqb_spec k "_") as [->|Hu].
  { by rewrite lookup_insert_eq. }
  rewrite lookup_insert_ne by done.
  destruct (String.eqb_spec k (param_name (jsonp cfg))) as [->|Hp].
  { by rewrite lookup_insert_eq. }
  by rewrite lookup_insert_ne.
Qed.

(** X10. Of the request parameters that query_page builds, the five
    pagination parameters always carry the page number and the
    configured sizes; any other parameter takes its value from the
    filters, else from the fixed query parameters, else it is the
    timestamp or the callback parameter; so the callback name reaches
    the server exactly when no other setting uses the name of the
    callback parameter. *)
Theorem query_params_precedence (cfg : SseConfig) (callback_name : text)
    (timestamp : Z) (page_no : nat) :
  let params := query_page_params cfg callback_name timestamp page_no in
  params !! "pageHelp.pageNo" = Some (ParamInt (Z.of_nat page_no)) /\
  params !! "pageHelp.beginPage" = Some (ParamInt (Z.of_nat page_no)) /\
  params !! "pageHelp.endPage" = Some (ParamInt (Z.of_nat page_no)) /\
  params !! "pageHelp.pageSize" = Some (ParamInt (page_size (pagination cfg))) /\
  params !! "pageHelp.cacheSize"
    = Some (ParamInt (cache_size (pagination cfg))) /\
  (forall k, k ∉ pagination_keys ->
     params !! k
     = match filters cfg !! k with
       | Some v => Some (ParamStr v)
       | None =>
           match query cfg !! k with
           | Some v => Some (ParamStr v)
           | None =>
               if String.eqb k "_" then Some (ParamInt timestamp)
               else if String.eqb k (param_name (jsonp cfg))
                    then Some (ParamText callback_name)
                    else None
           end
       end) /\
  (params !! param_name (jsonp cfg) = Some (ParamText callback_name) <->
   (param_name (jsonp cfg) ∉ pagination_keys) /\
   filters cfg !! param_name (jsonp cfg) = None /\
   query cfg !! param_name (jsonp cfg) = None /\
   param_name (jsonp cfg) <> "_").
Proof.
  intros params. unfold params.
  repeat (split; [by apply params_pagination|]).
  split; [apply params_other|].
  destruct (decide (param_name (jsonp cfg) ∈ pagination_keys)) as [Hin|Hout].
  - split; [|intuition]. intros Hget. exfalso.
    unfold pagination_keys in Hin.
    repeat (apply elem_of_cons in Hin as [Heq|Hin];
            [rewrite Heq in Hget;
             erewrite params_pagination in Hget by reflexivity;
             discriminate|]).
    by apply elem_of_nil in Hin.
  - rewrite (params_other _ _ _ _ _ Hout).
    destruct (filters cfg !! param_name (jsonp cfg)) as [v|];
      [intuition congruence|].
    destruct (query cfg !! param_name (jsonp cfg)) as [v|];
      [intuition congruence|].
    destruct (String.eqb_spec (param_name (jsonp cfg)) "_") as [Hu|Hu].
    + intuition congruence.
    + rewrite String.eqb_refl. intuition congruence.
Qed.

(** *** Configurations within the declared bounds *)

Lemma wait_exponential_floor (multiplier min_wait : Q) (attempt_number : nat) :
  (1 <= multiplier)%Q -> (1 <= attempt_number)%nat ->
  (min_wait <= wait_exponential multiplier min_wait attempt_number)%Q /\
  (1 <= wait_exponential multiplier min_wait attempt_number)%Q.
Proof.
  intros Hm Hn. unfold wait_exponential. cbv zeta. split.
  - eapply Qle_trans; [|apply Q.le_max_l]. apply Q.le_max_r.
  - eapply Qle_trans; [|apply Q.le_max_r].
    apply Q.min_glb.
    + assert (He : (1 <= inject_Z (2 ^ (Z.of_nat attempt_number - 1)))%Q).
      { change 1%Q with (inject_Z 1). rewrite <- Zle_Qle.
        assert (0 < 2 ^ (Z.of_nat attempt_number - 1))%Z
          by (apply Z.pow_pos_nonneg; lia).
        lia. }
      eapply Qle_trans; [exact He|].
      rewrite <- (Qmult_1_l (inject_Z _)) at 1.
      apply Qmult_le_compat_r; [done|].
      eapply Qle_trans; [|exact He]. done.
    + unfold MAX_WAIT. change 1%Q with (inject_Z 1). by rewrite <- Zle_Qle.
Qed.

(** X11. For a configuration within the bounds that the configuration
    models declare: _rate_limit never skips its check, and when the clock
    has not gone back it sleeps for at most ten seconds; _make_request
    sends between one and ten requests, and before each retry it waits
    at least one second and at least initial_delay. *)
Theorem valid_config_bounds (cfg : SseConfig) (world : nat -> Attempt)
    (last now : Q) :
  valid_config cfg ->
  ((last <= now)%Q ->
   match _rate_limit cfg last now with
   | [] => (1 / requests_per_second (rate_limit cfg) <= now - last)%Q
   | [RateLimitSleep d] => (0 < d)%Q /\ (d <= 10)%Q
   | _ => False
   end) /\
  exists n,
    (1 <= n)%nat /\ (n <= 10)%nat /\
    sent (_make_request cfg world last).1.2 = seq 1 n /\
    length (backoffs (_make_request cfg world last).1.2) = (n - 1)%nat /\
    Forall (fun w => (1 <= w)%Q /\ (initial_delay (retry cfg) <= w)%Q)
           (backoffs (_make_request cfg world last).1.2).
Proof.
  intros (_ & _ & Hrps & Hrps' & _ & Hatt & Hatt' & Hmult & _ & _). split.
  - intros Hclock. unfold _rate_limit.
    set (rps := requests_per_second (rate_limit cfg)) in *.
    assert (Hpos : (0 < rps)%Q) by (eapply Qlt_le_trans; [|exact Hrps]; done).
    destruct (Qle_bool rps 0) eqn:Hz.
    { apply Qle_bool_iff in Hz. exfalso. by apply (Qlt_not_le _ _ Hpos). }
    destruct (Qle_bool (1 / rps) (now - last)) eqn:He.
    { by apply Qle_bool_iff in He. }
    assert (Hlt : (now - last < 1 / rps)%Q).
    { apply Qnot_le_lt. intros Hle. apply Qle_bool_iff in Hle. congruence. }
    split.
    + by apply (proj1 (Qlt_minus_iff _ _)) in Hlt.
    + assert (Hinv : (1 / rps <= 10)%Q).
      { apply Qle_shift_div_r; [done|].
        eapply Qle_trans; [|apply Qmult_le_l; [done|exact Hrps]]. done. }
      assert (Hel : (0 <= now - last)%Q).
      { by apply (proj1 (Qle_minus_iff _ _)) in Hclock. }
      eapply Qle_trans; [|exact Hinv].
      rewrite <- (Qplus_0_r (1 / rps)) at 2.
      unfold Qminus at 1. apply Qplus_le_r.
      apply (Qopp_le_compat 0). exact Hel.
  - unfold _make_request.
    destruct (ClientProps.retry_call_spec cfg world
                (max_attempts (retry cfg) - 1) 1 last)
      as (n & Hn & Hsent & Hback & _).
    exists n. split; [lia|]. split; [lia|]. split; [done|].
    rewrite Hback. split.
    + by rewrite length_map, length_seq.
    + apply Forall_forall. intros w Hw.
      apply list_elem_of_In, in_map_iff in Hw as (i & <- & Hi).
      apply in_seq in Hi.
      destruct (wait_exponential_floor (backoff_multiplier (retry cfg))
                  (initial_delay (retry cfg)) i Hmult ltac:(lia)).
      done.
Qed.

(** *** Closed instances *)

Import Sample Examples.

Lemma valid_config_bounds_witness :
  ((0 <= 0)%Q ->
   match _rate_limit default_config 0 0 with
   | [] => (1 / requests_per_second (rate_limit default_config) <= 0 - 0)%Q
   | [RateLimitSleep d] => (0 < d)%Q /\ (d <= 10)%Q
   | _ => False
   end) /\
  exists n,
    (1 <= n)%nat /\ (n <= 10)%nat /\
    sent (_make_request default_config world_two_timeouts 0).1.2 = seq 1 n /\
    length (backoffs (_make_request default_config world_two_timeouts 0).1.2)
      = (n - 1)%nat /\
    Forall (fun w => (1 <= w)%Q /\
                     (initial_delay (retry default_config) <= w)%Q)
           (backoffs (_make_request default_config world_two_timeouts 0).1.2).
Proof.
  apply (valid_config_bounds default_config world_two_timeouts 0%Q 0%Q).
  unfold valid_config, Qle. simpl. repeat split; lia.
Defined.


End ClientFacts.

(** ** Further properties of the engine *)

Module FetcherFacts.
Import Config Stock Fetcher FetcherSpec.

Section Engine.
Context `{PyBuiltins}.
Variable config : SseConfig.

(** *** [_get_symbol] *)

Lemma get_symbol_cases (record : gmap string pyval) :
  match _get_symbol record with
  | Some symbol =>
      usable_symbol symbol = true /\
      exists k, k ∈ ["A_STOCK_CODE"; "B_STOCK_CODE"; "COMPANY_CODE"] /\
                record !! k = Some symbol
  | None =>
      forall k, k ∈ ["A_STOCK_CODE"; "B_STOCK_CODE"; "COMPANY_CODE"] ->
                usable_symbol (dict_get record k) = false
  end.
Proof.
  assert (Hget : forall k,
    usable_symbol (dict_get record k) = true ->
    record !! k = Some (dict_get record k)).
  { intros k. unfold dict_get. by destruct (record !! k). }
  unfold _get_symbol.
  destruct (usable_symbol (dict_get record "A_STOCK_CODE")) eqn:Ha.
  { split; [done|]. exists "A_STOCK_CODE". split; [set_solver|auto]. }
  destruct (usable_symbol (dict_get record "B_STOCK_CODE")) eqn:Hb.
  { split; [done|]. exists "B_STOCK_CODE". split; [set_solver|auto]. }
  destruct (usable_symbol (dict_get record "COMPANY_CODE")) eqn:Hc.
  { split; [done|]. exists "COMPANY_CODE". split; [set_solver|auto]. }
  intros k Hk.
  repeat (apply elem_of_cons in Hk as [->|Hk]; [done|]).
  by apply elem_of_nil in Hk.
Qed.

Lemma usable_symbol_key (symbol : pyval) (k : pykey) :
  usable_symbol symbol = true -> hash_key symbol = Ok k ->
  rejected_key k = false.
Proof.
  unfold usable_symbol.
  destruct symbol as [|b|n|q|s|l|l]; simpl; try done.
  - destruct b; [|done]. by intros _ [= <-].
  - rewrite andb_true_r. intros Hn [= <-]. simpl.
    by apply negb_true_iff in Hn.
  - rewrite andb_true_r. intros Hq [= <-].
    assert (Hnum : Qnum (Qred q) <> 0%Z).
    { intros Hz. apply negb_true_iff in Hq.
      assert (Heq : (q == 0)%Q).
      { rewrite <- (Qred_correct q). unfold Qeq. simpl. lia. }
      apply Qeq_bool_iff in Heq. congruence. }
    destruct (Qden (Qred q)); simpl; try done. by apply Z.eqb_neq.
  - intros Hs [= <-]. simpl.
    apply andb_true_iff in Hs as [H1 H2].
    apply negb_true_iff in H1, H2. by rewrite H1, H2.
Qed.

Lemma deduped_keys_usable S trace S' :
  deduped S trace S' ->
  (forall k, k ∈ S -> rejected_key k = false) ->
  forall k, k ∈ S' -> rejected_key k = false.
Proof.
  induction 1 as [S|S raw trace S' Hsym Hd IH
                  |S raw symbol k0 trace S' Hsym Hk Hin Hd IH
                  |S raw symbol k0 r url asof trace S' Hsym Hk Hin Hv Hd IH
                  |S raw symbol k0 e trace S' Hsym Hk Hin Hv Hd IH];
    intros HS; auto.
  all: apply IH; intros k [->%elem_of_singleton|Hk']%elem_of_union; auto.
  all: pose proof (get_symbol_cases raw) as Hc; rewrite Hsym in Hc.
  all: destruct Hc as [Hu _]; by eapply usable_symbol_key.
Qed.

(** X12. _get_symbol returns a value exactly when one of A_STOCK_CODE,
    B_STOCK_CODE, COMPANY_CODE holds a truthy value other than the dash;
    the value it returns is such a field of the record; and so the set of
    seen symbols never holds None, zero, the empty string or the dash. *)
Theorem seen_symbols_usable :
  (forall record,
      match _get_symbol record with
      | Some symbol =>
          usable_symbol symbol = true /\
          exists k, k ∈ ["A_STOCK_CODE"; "B_STOCK_CODE"; "COMPANY_CODE"] /\
                    record !! k = Some symbol
      | None =>
          forall k, k ∈ ["A_STOCK_CODE"; "B_STOCK_CODE"; "COMPANY_CODE"] ->
                    usable_symbol (dict_get record k) = false
      end) /\
  (forall client asof now st c k,
      reached config client asof now st c ->
      k ∈ unique_symbols (progress st) ->
      rejected_key k = false).
Proof.
  split; [apply get_symbol_cases|].
  intros client asof now st c k Hr. revert k.
  induction Hr as [|st st' trace c Hr IH Hp]; intros k.
  - simpl. set_solver.
  - apply FetcherProps.fetch_page_deduped in Hp.
    by apply (deduped_keys_usable _ _ _ Hp).
Qed.

(** *** The counters of the progress object *)

Lemma sample_error_frame (e : ErrorSample) (p : FetchProgress) :
  page_no (sample_error e p) = page_no p /\
  failed_pages (sample_error e p) = failed_pages p /\
  retry_count (sample_error e p) = retry_count p /\
  start_time (sample_error e p) = start_time p /\
  total_records (sample_error e p) = total_records p.
Proof. unfold sample_error. by destruct (_ <? _)%nat. Qed.

Lemma process_record_frame url asof p raw p' ev :
  process_record url asof p raw = Ok (p', ev) ->
  page_no p' = page_no p /\ failed_pages p' = failed_pages p /\
  retry_count p' = retry_count p /\ start_time p' = start_time p /\
  total_records p' = ((if counted ev then 1 else 0) + total_records p)%nat.
Proof.
  unfold process_record. intros Hp.
  destruct (_get_symbol raw) as [symbol|]; [|by simplify_eq].
  destruct (hash_key symbol) as [k|e]; [|done].
  case_bool_decide; [by simplify_eq|].
  destruct (model_validate raw) as [r|e]; simplify_eq; [done|].
  match goal with |- context [sample_error ?s ?q] =>
    pose proof (sample_error_frame s q) as (-> & -> & -> & -> & ->) end.
  done.
Qed.

Lemma process_records_frame url asof records : forall p p' trace e,
  process_records url asof records p = (p', trace, e) ->
  page_no p' = page_no p /\ failed_pages p' = failed_pages p /\
  retry_count p' = retry_count p /\ start_time p' = start_time p /\
  total_records p'
    = (length (List.filter (fun entry => counted entry.2) trace)
       + total_records p)%nat.
Proof.
  induction records as [|raw rest IH]; intros p p' trace e; simpl.
  { by intros [= <- <- <-]. }
  destruct (process_record url asof p raw) as [[p1 ev]|e1] eqn:Hrec;
    [|by intros [= <- <- <-]].
  destruct (process_records url asof rest p1) as [[p2 trace2] e2] eqn:Hrest.
  intros [= <- <- <-].
  apply IH in Hrest as (-> & -> & -> & -> & ->).
  apply process_record_frame in Hrec as (-> & -> & -> & -> & ->).
  repeat split; try done. simpl.
  destruct (counted ev); simpl; lia.
Qed.

Lemma handle_failure_frame e p c last :
  let st' := (handle_failure e p c last).1 in
  page_no (progress st') = page_no p /\
  failed_pages (progress st') = S (failed_pages p) /\
  retry_count (progress st') = retry_count p /\
  start_time (progress st') = start_time p /\
  total_records (progress st') = total_records p /\
  consecutive_empty st' = S c /\
  _last_request_time st' = last /\
  (handle_failure e p c last).2
    = if (MAX_CONSECUTIVE_FAILURES <=? S c)%nat then Break else Continue.
Proof.
  unfold handle_failure. cbn [fst snd progress consecutive_empty
                              _last_request_time].
  match goal with |- context [sample_error ?s ?q] =>
    pose proof (sample_error_frame s q) as (-> & -> & -> & -> & ->) end.
  done.
Qed.

(** What one iteration does to the counters. *)
Lemma fetch_page_counters client asof st st' trace c :
  fetch_page config client asof st = (st', trace, c) ->
  page_no (progress st') = S (page_no (progress st)) /\
  retry_count (progress st') = retry_count (progress st) /\
  start_time (progress st') = start_time (progress st) /\
  total_records (progress st')
    = (length (List.filter (fun entry => counted entry.2) trace)
       + total_records (progress st))%nat /\
  _last_request_time st'
    = requested_at (client (S (page_no (progress st)))) /\
  ((consecutive_empty st' = 0%nat /\
    failed_pages (progress st') = failed_pages (progress st)) \/
   ((1 <= consecutive_empty st')%nat /\
    (consecutive_empty st' <= S (consecutive_empty st))%nat /\
    failed_pages (progress st') = S (failed_pages (progress st)))) /\
  (c = Continue -> (consecutive_empty st' < MAX_CONSECUTIVE_FAILURES)%nat).
Proof.
  unfold fetch_page. cbn [page_no next_page].
  destruct (page_result (client (S (page_no (progress st)))))
    as [records page_help|e].
  - destruct (process_records _ asof records (next_page (progress st)))
      as [[p1 trace1] [e1|]] eqn:Hrec;
      apply process_records_frame in Hrec as (Hp & Hf & Hr & Hs & Ht);
      simpl in Hp, Hf, Hr, Hs, Ht.
    + destruct (handle_failure e1 p1 0 _) as [st1 c1] eqn:Hh.
      intros [= <- <- <-].
      pose proof (handle_failure_frame e1 p1 0
        (requested_at (client (S (page_no (progress st))))))
        as (Hp' & Hf' & Hr' & Hs' & Ht' & Hc' & Hl' & Hb').
      rewrite Hh in Hp', Hf', Hr', Hs', Ht', Hc', Hl', Hb'.
      simpl in Hp', Hf', Hr', Hs', Ht', Hc', Hl', Hb'.
      rewrite Hp', Hf', Hr', Hs', Ht', Hc', Hl', Hp, Hf, Hr, Hs, Ht.
      repeat split; try done.
      * right. lia.
      * intros _. unfold MAX_CONSECUTIVE_FAILURES. lia.
    + intros [= <- <- <-]. simpl.
      rewrite Hp, Hf, Hr, Hs, Ht. repeat split; try done.
      * by left.
      * intros _. unfold MAX_CONSECUTIVE_FAILURES. lia.
  - destruct (handle_failure e _ (consecutive_empty st) _) as [st1 c1] eqn:Hh.
    intros [= <- <- <-].
    pose proof (handle_failure_frame e (next_page (progress st))
      (consecutive_empty st)
      (requested_at (client (S (page_no (progress st))))))
      as (Hp' & Hf' & Hr' & Hs' & Ht' & Hc' & Hl' & Hb').
    rewrite Hh in Hp', Hf', Hr', Hs', Ht', Hc', Hl', Hb'.
    simpl in Hp', Hf', Hr', Hs', Ht', Hc', Hl', Hb'.
    rewrite Hp', Hf', Hr', Hs', Ht', Hc', Hl'.
    repeat split; try done.
    + right. lia.
    + intros ->. unfold MAX_CONSECUTIVE_FAILURES.
      destruct (consecutive_empty st) as [|[|n]]; [lia|lia|done].
Qed.

Lemma reached_counters client asof now st c :
  reached config client asof now st c ->
  (failed_pages (progress st) <= page_no (progress st))%nat /\
  (consecutive_empty st <= failed_pages (progress st))%nat /\
  (consecutive_empty st <= MAX_CONSECUTIVE_FAILURES)%nat /\
  (c = Continue -> (consecutive_empty st < MAX_CONSECUTIVE_FAILURES)%nat) /\
  retry_count (progress st) = 0%nat /\
  start_time (progress st) = now.
Proof.
  induction 1 as [|st st' trace c Hr IH Hp].
  - simpl. unfold MAX_CONSECUTIVE_FAILURES. repeat split; try lia; done.
  - destruct IH as (Hf & Hc & Hm & Hlt & Hrc & Hst).
    specialize (Hlt eq_refl).
    apply fetch_page_counters in Hp
      as (Hp' & Hr' & Hs' & _ & _ & Hcases & Hcont).
    rewrite Hp', Hr', Hs'.
    unfold MAX_CONSECUTIVE_FAILURES in *.
    destruct Hcases as [[-> ->]|(H1 & H2 & ->)];
      repeat split; try done; try lia.
Qed.

Lemma fetch_pages_count client asof n : forall st st' trace c,
  fetch_pages config n client asof st = (st', trace, c) ->
  (page_no (progress st') <= page_no (progress st) + n)%nat /\
  (c = Continue -> page_no (progress st') = (page_no (progress st) + n)%nat) /\
  (c = Break -> (page_no (progress st) < page_no (progress st'))%nat).
Proof.
  induction n as [|n IH]; intros st st' trace c; simpl.
  { intros [= <- <- <-]. repeat split; try lia; done. }
  destruct (fetch_page config client asof st) as [[st1 trace1] [|]] eqn:Hpage;
    pose proof (FetcherProps.fetch_page_page_no config client asof st) as Hno;
    rewrite Hpage in Hno; simpl in Hno.
  - destruct (fetch_pages config n client asof st1) as [[st2 trace2] c2]
      eqn:Hrest.
    intros [= <- <- <-].
    apply IH in Hrest as (Hle & Hc & Hb). rewrite Hno in *.
    repeat split; intros; try lia.
    + rewrite Hc by done. lia.
    + specialize (Hb ltac:(done)). lia.
  - intros [= <- <- <-]. repeat split; try lia; done.
Qed.

(** X13. Whatever the server answers, after any number of iterations:
    page_no is the number of iterations made (at most n, and n while the
    loop has not ended); failed_pages is at most page_no; the count of
    consecutive failures is at most failed_pages and at most
    MAX_CONSECUTIVE_FAILURES, and below it while the loop runs; and the
    loop never touches retry_count or the start time. *)
Theorem progress_counters client asof now n :
  let '(st, _, c) := iter_raw_records_upto config n client asof now in
  (page_no (progress st) <= n)%nat /\
  (c = Continue -> page_no (progress st) = n) /\
  (c = Break -> (1 <= page_no (progress st))%nat) /\
  (failed_pages (progress st) <= page_no (progress st))%nat /\
  (consecutive_empty st <= failed_pages (progress st))%nat /\
  (consecutive_empty st <= MAX_CONSECUTIVE_FAILURES)%nat /\
  (c = Continue -> (consecutive_empty st < MAX_CONSECUTIVE_FAILURES)%nat) /\
  retry_count (progress st) = 0%nat /\
  start_time (progress st) = now.
Proof.
  unfold iter_raw_records_upto.
  destruct (fetch_pages config n client asof (initial_state now))
    as [[st trace] c] eqn:Hrun.
  pose proof (fetch_pages_count _ _ _ _ _ _ _ Hrun) as (Hle & Hc & Hb).
  simpl in Hle, Hc, Hb.
  apply (FetcherProps.fetch_pages_reached config client asof now) in Hrun;
    [|apply reached_start].
  apply reached_counters in Hrun as (Hf & Hce & Hm & Hlt & Hrc & Hst).
  repeat split; try done; intros Hbreak; specialize (Hb Hbreak); lia.
Qed.

(** *** The error samples *)

Lemma response_snippet_length (response_text : option text) :
  match response_snippet_of response_text with
  | Some t => (1 <= length t)%nat /\ (length t <= 200)%nat
  | None => True
  end.
Proof.
  destruct response_text as [[|c rest]|]; simpl; try done.
  rewrite length_take. lia.
Qed.

Lemma sample_ok_mono (n m : nat) (e : ErrorSample) :
  (n <= m)%nat -> sample_ok n e -> sample_ok m e.
Proof. destruct e; simpl; intuition lia. Qed.

Lemma sample_error_ok (e : ErrorSample) (failures : nat) (p : FetchProgress) :
  sample_ok (page_no p) e ->
  samples_ok failures p -> samples_ok (S failures) (sample_error e p).
Proof.
  intros He [Hlen Hall]. unfold samples_ok, sample_error.
  destruct (length (errors p) <? MAX_ERROR_SAMPLES)%nat eqn:Hlt;
    cbn [errors page_no]; unfold MAX_ERROR_SAMPLES in *.
  - apply Nat.ltb_lt in Hlt. split.
    + rewrite length_app. cbn [length]. lia.
    + apply Forall_app. split; [done|]. by apply Forall_singleton.
  - apply Nat.ltb_ge in Hlt. split; [lia|done].
Qed.

Lemma process_record_samples url asof p raw p' ev failures :
  process_record url asof p raw = Ok (p', ev) ->
  (1 <= page_no p)%nat ->
  samples_ok failures p ->
  samples_ok (failures + length (parse_failures [(raw, ev)])) p'.
Proof.
  unfold process_record. intros Hp Hpage Hok.
  destruct (_get_symbol raw) as [symbol|];
    [|simplify_eq; simpl; by rewrite Nat.add_0_r].
  destruct (hash_key symbol) as [k|e]; [|done].
  case_bool_decide; [simplify_eq; simpl; by rewrite Nat.add_0_r|].
  destruct (model_validate raw) as [r|e]; simplify_eq; simpl.
  - by rewrite Nat.add_0_r.
  - rewrite Nat.add_1_r. apply sample_error_ok; [simpl; lia|done].
Qed.

Lemma process_records_samples url asof records : forall p p' trace e failures,
  process_records url asof records p = (p', trace, e) ->
  (1 <= page_no p)%nat ->
  samples_ok failures p ->
  samples_ok (failures + length (parse_failures trace)) p'.
Proof.
  induction records as [|raw rest IH]; intros p p' trace e failures; simpl.
  { intros [= <- <- <-] _ Hok. simpl. by rewrite Nat.add_0_r. }
  destruct (process_record url asof p raw) as [[p1 ev]|e1] eqn:Hrec.
  2:{ intros [= <- <- <-] _ Hok. simpl. by rewrite Nat.add_0_r. }
  destruct (process_records url asof rest p1) as [[p2 trace2] e2] eqn:Hrest.
  intros [= <- <- <-] Hpage Hok.
  pose proof (process_record_frame _ _ _ _ _ _ Hrec) as (Hno & _).
  apply (process_record_samples _ _ _ _ _ _ failures) in Hrec; [|done..].
  apply (IH _ _ _ _ _ Hrest) in Hrec; [|lia].
  replace (parse_failures ((raw, ev) :: trace2))
    with (parse_failures [(raw, ev)] ++ parse_failures trace2)%list
    by (unfold parse_failures; simpl; by destruct ev).
  by rewrite length_app, Nat.add_assoc.
Qed.

Lemma handle_failure_samples e p c last failures :
  (1 <= page_no p)%nat ->
  samples_ok failures p ->
  samples_ok (S failures) (progress (handle_failure e p c last).1).
Proof.
  intros Hpage Hok. unfold handle_failure. cbn [fst progress].
  apply sample_error_ok; [|done].
  destruct e; simpl; try lia.
  pose proof (response_snippet_length response_text).
  by destruct (response_snippet_of response_text).
Qed.

Lemma fetch_page_samples client asof st st' trace c k :
  fetch_page config client asof st = (st', trace, c) ->
  samples_ok (failed_pages (progress st) + k) (progress st) ->
  samples_ok (failed_pages (progress st') + k + length (parse_failures trace))
    (progress st').
Proof.
  intros Hpage [Hlen Hall].
  assert (Hnext : samples_ok (failed_pages (progress st) + k)
                    (next_page (progress st))).
  { split; [done|]. simpl.
    eapply Forall_impl; [done|]. intros x. apply sample_ok_mono. lia. }
  revert Hpage. unfold fetch_page. cbn [page_no next_page].
  destruct (page_result (client (S (page_no (progress st)))))
    as [records page_help|e].
  - destruct (process_records _ asof records (next_page (progress st)))
      as [[p1 trace1] [e1|]] eqn:Hrec;
      pose proof (process_records_frame _ _ _ _ _ _ _ Hrec)
        as (Hp & Hf & _);
      (apply (process_records_samples _ _ _ _ _ _ _
                (failed_pages (progress st) + k)) in Hrec;
       [|simpl; lia|done]);
      simpl in Hp, Hf.
    + destruct (handle_failure e1 p1 0 _) as [st1 c1] eqn:Hh.
      intros [= <- <- <-].
      pose proof (handle_failure_frame e1 p1 0
        (requested_at (client (S (page_no (progress st))))))
        as (_ & Hf' & _).
      apply (handle_failure_samples e1 p1 0
        (requested_at (client (S (page_no (progress st)))))) in Hrec;
        [|lia].
      rewrite Hh in Hf', Hrec. simpl in Hf', Hrec. rewrite Hf', Hf.
      by replace (S (failed_pages (progress st)) + k
                  + length (parse_failures trace1))%nat
        with (S (failed_pages (progress st) + k
                 + length (parse_failures trace1))) by lia.
    + intros [= <- <- <-]. simpl. by rewrite Hf.
  - destruct (handle_failure e _ (consecutive_empty st) _) as [st1 c1] eqn:Hh.
    intros [= <- <- <-].
    pose proof (handle_failure_frame e (next_page (progress st))
      (consecutive_empty st)
      (requested_at (client (S (page_no (progress st))))))
      as (_ & Hf' & _).
    apply (handle_failure_samples e _ (consecutive_empty st)
      (requested_at (client (S (page_no (progress st)))))) in Hnext;
      [|simpl; lia].
    rewrite Hh in Hf', Hnext. simpl in Hf', Hnext. rewrite Hf'. simpl.
    by rewrite Nat.add_0_r.
Qed.

Lemma fetch_pages_samples client asof n : forall st st' trace c k,
  fetch_pages config n client asof st = (st', trace, c) ->
  samples_ok (failed_pages (progress st) + k) (progress st) ->
  samples_ok (failed_pages (progress st') + k + length (parse_failures trace))
    (progress st').
Proof.
  induction n as [|n IH]; intros st st' trace c k; simpl.
  { intros [= <- <- <-] Hok. simpl. by rewrite Nat.add_0_r. }
  destruct (fetch_page config client asof st) as [[st1 trace1] [|]] eqn:Hpage.
  - destruct (fetch_pages config n client asof st1) as [[st2 trace2] c2]
      eqn:Hrest.
    intros [= <- <- <-] Hok.
    apply (fetch_page_samples _ _ _ _ _ _ k) in Hpage; [|done].
    rewrite <- Nat.add_assoc in Hpage.
    apply (IH _ _ _ _ _ Hrest) in Hpage.
    unfold parse_failures. rewrite omap_app, length_app.
    by rewrite !Nat.add_assoc in *.
  - intros [= <- <- <-] Hok. by apply (fetch_page_samples _ _ _ _ _ _ k Hpage).
Qed.

(** X14. The run keeps the first MAX_ERROR_SAMPLES failures as samples:
    after any number of iterations the length of errors is the number of
    failed pages plus the number of records that failed validation,
    capped at MAX_ERROR_SAMPLES; every sample names a page that was asked
    for; and the response snippet of an API error is never empty and
    never longer than 200 characters. *)
Theorem error_samples_capped client asof now n :
  let '(st, trace, _) := iter_raw_records_upto config n client asof now in
  length (errors (progress st))
    = (MAX_ERROR_SAMPLES
       `min` (failed_pages (progress st) + length (parse_failures trace)))%nat /\
  Forall (sample_ok (page_no (progress st))) (errors (progress st)).
Proof.
  unfold iter_raw_records_upto.
  destruct (fetch_pages config n client asof (initial_state now))
    as [[st trace] c] eqn:Hrun.
  apply (fetch_pages_samples _ _ _ _ _ _ _ 0%nat) in Hrun.
  - by rewrite Nat.add_0_r in Hrun.
  - split; simpl; [done|constructor].
Qed.

(** *** The records counted *)

Lemma counted_split (trace : Trace) :
  length (List.filter (fun entry => counted entry.2) trace)
  = (length (yielded trace) + length (parse_failures trace))%nat.
Proof.
  unfold yielded, parse_failures.
  induction trace as [|[raw ev] trace IH]; [done|].
  destruct ev; simpl; rewrite ?Nat.add_succ_r; try f_equal; exact IH.
Qed.

Lemma filter_partition {A : Type} (f : A -> bool) (l : list A) :
  length l = (length (List.filter f l)
              + length (List.filter (fun x => negb (f x)) l))%nat.
Proof.
  induction l as [|a l IH]; [done|].
  simpl. destruct (f a); simpl; lia.
Qed.

Lemma fetch_pages_counted client asof n : forall st st' trace c,
  fetch_pages config n client asof st = (st', trace, c) ->
  total_records (progress st')
  = (length (List.filter (fun entry => counted entry.2) trace)
     + total_records (progress st))%nat.
Proof.
  induction n as [|n IH]; intros st st' trace c; simpl.
  { by intros [= <- <- <-]. }
  destruct (fetch_page config client asof st) as [[st1 trace1] [|]] eqn:Hpage;
    apply fetch_page_counters in Hpage as (_ & _ & _ & Ht & _).
  - destruct (fetch_pages config n client asof st1) as [[st2 trace2] c2]
      eqn:Hrest.
    intros [= <- <- <-]. apply IH in Hrest.
    rewrite Hrest, Ht, List.filter_app, length_app. lia.
  - by intros [= <- <- <-].
Qed.

(** X15. After any number of iterations total_records is the number of
    records yielded plus the number of records that failed validation:
    a record without a symbol or with a symbol seen before is not
    counted, and a record that fails validation is counted although it
    is not yielded. *)
Theorem total_records_counts client asof now n :
  let '(st, trace, _) := iter_raw_records_upto config n client asof now in
  total_records (progress st)
    = (length (yielded trace) + length (parse_failures trace))%nat /\
  (length (yielded trace) <= unique_count (progress st))%nat /\
  (length trace
   = length (yielded trace) + length (parse_failures trace)
     + length (List.filter (fun entry => negb (counted entry.2)) trace))%nat.
Proof.
  unfold iter_raw_records_upto.
  destruct (fetch_pages config n client asof (initial_state now))
    as [[st trace] c] eqn:Hrun.
  pose proof (fetch_pages_counted _ _ _ _ _ _ _ Hrun) as Ht.
  apply (FetcherProps.fetch_pages_reached config client asof now) in Hrun;
    [|apply reached_start].
  apply FetcherProps.reached_counts in Hrun. unfold counts_agree in Hrun.
  simpl in Ht. rewrite Nat.add_0_r, counted_split in Ht.
  split; [done|]. split.
  - unfold unique_count. rewrite <- Hrun, Ht. lia.
  - rewrite <- counted_split. apply filter_partition.
Qed.

(** *** Where a yielded item comes from *)

Lemma process_record_yield url asof p raw p' r url' asof' :
  process_record url asof p raw = Ok (p', Yielded (r, url', asof')) ->
  url' = url /\ asof' = asof /\ model_validate raw = Ok r.
Proof.
  unfold process_record. intros Hp.
  destruct (_get_symbol raw) as [symbol|]; [|done].
  destruct (hash_key symbol) as [k|e]; [|done].
  case_bool_decide; [done|].
  destruct (model_validate raw) as [r0|e]; by simplify_eq.
Qed.

Lemma process_records_yield url asof records :
  forall p p' trace e raw r url' asof',
    process_records url asof records p = (p', trace, e) ->
    (raw, Yielded (r, url', asof')) ∈ trace ->
    raw ∈ records /\ url' = url /\ asof' = asof /\ model_validate raw = Ok r.
Proof.
  induction records as [|raw0 rest IH];
    intros p p' trace e raw r url' asof'; simpl.
  { intros [= <- <- <-] Hin. by apply elem_of_nil in Hin. }
  destruct (process_record url asof p raw0) as [[p1 ev]|e1] eqn:Hrec.
  2:{ intros [= <- <- <-] Hin. by apply elem_of_nil in Hin. }
  destruct (process_records url asof rest p1) as [[p2 trace2] e2] eqn:Hrest.
  intros [= <- <- <-] [Heq|Hin]%elem_of_cons.
  - injection Heq as <- <-.
    apply process_record_yield in Hrec as (-> & -> & Hv).
    split; [left|done].
  - destruct (IH _ _ _ _ _ _ _ _ Hrest Hin) as (Hel & Hrest').
    split; [by right|done].
Qed.

Lemma fetch_page_yield client asof st st' trace c raw r url' asof' :
  fetch_page config client asof st = (st', trace, c) ->
  (raw, Yielded (r, url', asof')) ∈ trace ->
  exists records page_help,
    page_result (client (S (page_no (progress st))))
      = PageData records page_help /\
    raw ∈ records /\
    url' = _build_source_url config (S (page_no (progress st))) /\
    asof' = asof /\ model_validate raw = Ok r.
Proof.
  unfold fetch_page. cbn [page_no next_page].
  destruct (page_result (client (S (page_no (progress st)))))
    as [records page_help|e].
  - destruct (process_records _ asof records (next_page (progress st)))
      as [[p1 trace1] [e1|]] eqn:Hrec.
    + destruct (handle_failure e1 p1 0 _) as [st1 c1].
      intros [= <- <- <-] Hin. exists records, page_help.
      split; [done|]. by eapply process_records_yield.
    + intros [= <- <- <-] Hin. exists records, page_help.
      split; [done|]. by eapply process_records_yield.
  - destruct (handle_failure e _ (consecutive_empty st) _) as [st1 c1].
    intros [= <- <- <-] Hin. by apply elem_of_nil in Hin.
Qed.

Lemma fetch_pages_yield client asof n :
  forall st st' trace c raw r url' asof',
    fetch_pages config n client asof st = (st', trace, c) ->
    (raw, Yielded (r, url', asof')) ∈ trace ->
    exists page records page_help,
      (page_no (progress st) < page)%nat /\
      (page <= page_no (progress st'))%nat /\
      page_result (client page) = PageData records page_help /\
      raw ∈ records /\
      url' = _build_source_url config page /\
      asof' = asof /\ model_validate raw = Ok r.
Proof.
  induction n as [|n IH]; intros st st' trace c raw r url' asof'; simpl.
  { intros [= <- <- <-] Hin. by apply elem_of_nil in Hin. }
  destruct (fetch_page config client asof st) as [[st1 trace1] [|]] eqn:Hpage;
    pose proof (FetcherProps.fetch_page_page_no config client asof st) as Hno;
    rewrite Hpage in Hno; simpl in Hno.
  - destruct (fetch_pages config n client asof st1) as [[st2 trace2] c2]
      eqn:Hrest.
    pose proof (fetch_pages_count _ _ _ _ _ _ _ Hrest) as (Hle & Hc & Hb).
    assert (Hmono : (page_no (progress st1) <= page_no (progress st2))%nat).
    { destruct c2; [rewrite Hc by done; lia|specialize (Hb eq_refl); lia]. }
    intros [= <- <- <-] [Hin|Hin]%elem_of_app.
    + destruct (fetch_page_yield _ _ _ _ _ _ _ _ _ _ Hpage Hin)
        as (records & page_help & Hres & Hrest').
      exists (S (page_no (progress st))), records, page_help.
      repeat split; try tauto; lia.
    + destruct (IH _ _ _ _ _ _ _ _ Hrest Hin)
        as (page & records & page_help & Hlt & Hle' & Hrest').
      exists page, records, page_help. repeat split; try tauto; lia.
  - intros [= <- <- <-] Hin.
    destruct (fetch_page_yield _ _ _ _ _ _ _ _ _ _ Hpage Hin)
      as (records & page_help & Hres & Hrest').
    exists (S (page_no (progress st))), records, page_help.
    repeat split; try tauto; lia.
Qed.

Lemma append_inj_r (a b c : string) : a ++ b = a ++ c -> b = c.
Proof. induction a as [|x a IH]; simpl; [done|]. intros [= Heq]. auto. Qed.

Lemma build_source_url_inj (page page' : nat) :
  _build_source_url config page = _build_source_url config page' ->
  page = page'.
Proof.
  unfold _build_source_url. intros Heq.
  repeat apply append_inj_r in Heq.
  by apply (inj pretty) in Heq.
Qed.

(** X16. Every item the generator yields is the validated form of a record
    of a page the server returned, paired with the timestamp of the run
    and with the source URL built for that page; the page lies between 1
    and the last page asked for, and the URL determines the page. *)
Theorem yielded_provenance client asof now n st trace c raw r url asof' :
  iter_raw_records_upto config n client asof now = (st, trace, c) ->
  (raw, Yielded (r, url, asof')) ∈ trace ->
  exists page records page_help,
    (1 <= page)%nat /\ (page <= page_no (progress st))%nat /\
    page_result (client page) = PageData records page_help /\
    raw ∈ records /\
    model_validate raw = Ok r /\
    asof' = asof /\
    url = _build_source_url config page /\
    forall page', url = _build_source_url config page' -> page' = page.
Proof.
  unfold iter_raw_records_upto. intros Hrun Hin.
  destruct (fetch_pages_yield _ _ _ _ _ _ _ _ _ _ _ Hrun Hin)
    as (page & records & page_help & Hlt & Hle & Hres & Hel & -> & -> & Hv).
  exists page, records, page_help. simpl in Hlt.
  repeat split; try done; try lia.
  intros page' Heq. by apply build_source_url_inj in Heq.
Qed.

(** *** Yielded records and the normaliser *)

Lemma normalize_symbol (r : RawSseRecord) (s url : string) (asof : datetime)
    (stock_type : string) (include_raw : bool) :
  Normalizer.spec_symbol r = Some s ->
  exists rec,
    Normalizer.normalize_sse_record r url asof stock_type include_raw = Ok rec /\
    symbol rec = s /\
    Stock.source_url rec = url /\ Stock.asof rec = asof /\
    category rec
      = match Normalizer.STOCK_TYPE_MAP !! stock_type with
        | Some label => ("STOCK_TYPE_" ++ stock_type) ++ "_" ++ label
        | None => "STOCK_TYPE_" ++ stock_type
        end.
Proof.
  unfold Normalizer.spec_symbol, Normalizer.normalize_sse_record.
  pose proof (NormalizerProps.symbol_cascade (A_STOCK_CODE r)
                (B_STOCK_CODE r) (COMPANY_CODE r)) as Hsym.
  cbv zeta in Hsym |- *. intros Hs. rewrite Hs in Hsym.
  destruct Hsym as (Hs' & Hu & _). rewrite Hu, Hs'.
  eexists. split; [reflexivity|]. by simpl.
Qed.

Lemma deduped_yielded_keys S trace S' :
  deduped S trace S' ->
  NoDup (yielded_keys trace) /\
  forall k, k ∈ yielded_keys trace -> (k ∉ S) /\ (k ∈ S').
Proof.
  induction 1 as [S|S raw trace S' Hsym Hd IH
                  |S raw symbol k0 trace S' Hsym Hk Hin Hd IH
                  |S raw symbol k0 r url asof trace S' Hsym Hk Hin Hv Hd IH
                  |S raw symbol k0 e trace S' Hsym Hk Hin Hv Hd IH];
    unfold yielded_keys in *; simpl.
  - split; [constructor|]. intros k Hel. by apply elem_of_nil in Hel.
  - done.
  - done.
  - rewrite (FetcherProps.business_key_Some _ _ _ Hsym Hk). simpl.
    destruct IH as [Hnd Hall]. split.
    + constructor; [|done]. intros Hel. apply Hall in Hel as [Hnot _].
      apply Hnot, elem_of_union_l. by apply elem_of_singleton.
    + intros k [->|Hel]%elem_of_cons.
      * split; [done|]. apply FetcherProps.deduped_mono in Hd.
        apply Hd, elem_of_union_l. by apply elem_of_singleton.
      * apply Hall in Hel as [Hnot Hel]. split; [|done].
        intros HS. by apply Hnot, elem_of_union_r.
  - destruct IH as [Hnd Hall]. split; [done|].
    intros k Hel. apply Hall in Hel as [Hnot Hel]. split; [|done].
    intros HS. by apply Hnot, elem_of_union_r.
Qed.

Lemma deduped_normalises stock_type include_raw S trace S' :
  deduped S trace S' ->
  exists recs,
    Forall2 (fun item rec =>
               Normalizer.normalize_sse_record item.1.1 item.1.2 item.2
                 stock_type include_raw = Ok rec /\
               Stock.source_url rec = item.1.2 /\ Stock.asof rec = item.2)
            (yielded trace) recs /\
    (fun rec => KStr (symbol rec)) <$> recs = yielded_keys trace.
Proof.
  induction 1 as [S|S raw trace S' Hsym Hd IH
                  |S raw symbol k0 trace S' Hsym Hk Hin Hd IH
                  |S raw symbol k0 r url asof trace S' Hsym Hk Hin Hv Hd IH
                  |S raw symbol k0 e trace S' Hsym Hk Hin Hv Hd IH];
    unfold yielded, yielded_keys in *; simpl; try done.
  - by exists [].
  - destruct IH as (recs & Hall & Hkeys).
    destruct (FetcherProps.validated_symbol _ _ _ Hv Hsym)
      as (s & -> & Hspec & Hkey).
    destruct (normalize_symbol r s url asof stock_type include_raw Hspec)
      as (rec & Hn & Hs & Hu & Ha & _).
    exists (rec :: recs). rewrite Hkey. simpl. split.
    + by constructor.
    + f_equal; [by rewrite Hs|exact Hkeys].
Qed.

(** X17. Every item the generator yields is accepted by
    normalize_sse_record, which gives it as symbol the string the engine
    deduplicated on and keeps its source URL and timestamp; hence the
    normalised records of one run have pairwise distinct symbols, all of
    them in the set of seen symbols. *)
Theorem yielded_records_normalise client asof now n st trace c
    (stock_type : string) (include_raw : bool) :
  iter_raw_records_upto config n client asof now = (st, trace, c) ->
  exists recs,
    Forall2 (fun item rec =>
               Normalizer.normalize_sse_record item.1.1 item.1.2 item.2
                 stock_type include_raw = Ok rec /\
               Stock.source_url rec = item.1.2 /\ Stock.asof rec = item.2)
            (yielded trace) recs /\
    (fun rec => KStr (symbol rec)) <$> recs = yielded_keys trace /\
    NoDup (symbol <$> recs) /\
    Forall (fun rec => KStr (symbol rec) ∈ unique_symbols (progress st)) recs.
Proof.
  unfold iter_raw_records_upto. intros Hrun.
  apply FetcherProps.fetch_pages_deduped in Hrun. simpl in Hrun.
  destruct (deduped_normalises stock_type include_raw _ _ _ Hrun)
    as (recs & Hall & Hkeys).
  destruct (deduped_yielded_keys _ _ _ Hrun) as [Hnd Hin].
  exists recs. split; [done|]. split; [done|]. split.
  - rewrite <- Hkeys in Hnd.
    rewrite (list_fmap_compose symbol KStr) in Hnd.
    by apply NoDup_fmap_1 in Hnd.
  - apply Forall_forall. intros rec Hel. apply Hin. rewrite <- Hkeys.
    by apply (list_elem_of_fmap_2 (fun rec => KStr (symbol rec))).
Qed.

(** *** When the loop goes on *)

Lemma process_record_raise url asof p raw e :
  process_record url asof p raw = Raise e -> exists m, e = TypeError m.
Proof.
  unfold process_record.
  destruct (_get_symbol raw) as [symbol|]; [|done].
  destruct symbol; simpl; try (case_bool_decide; [done|]);
    try (destruct (model_validate raw); done);
    intros [= <-]; eauto.
Qed.

(** The record loop raises when a symbol cannot be hashed. *)
Lemma process_records_raises url asof records : forall p,
  forallb keyed_by_scalar records = false ->
  exists p' trace m,
    process_records url asof records p = (p', trace, Some (TypeError m)).
Proof.
  induction records as [|raw rest IH]; simpl; intros p Hall; [done|].
  destruct (process_record url asof p raw) as [[p1 ev]|e] eqn:Hrec.
  - assert (Hraw : keyed_by_scalar raw = true).
    { unfold process_record, keyed_by_scalar in *.
      destruct (_get_symbol raw) as [symbol|]; [|done].
      by destruct symbol. }
    rewrite Hraw in Hall. simpl in Hall.
    destruct (IH p1 Hall) as (p' & trace & m & ->). eauto.
  - apply process_record_raise in Hrec as [m ->]. eauto.
Qed.



(** *** The end of the run *)




(** X20. When every page the server sends holds a record whose symbol
    cannot be hashed, the loop never ends: each page counts as one
    failure, the next request resets the count of consecutive failures,
    and neither MAX_CONSECUTIVE_FAILURES nor MAX_PAGES stops the run. *)
Theorem unhashable_symbols_never_stop client asof now :
  (forall page, exists records page_help,
      page_result (client page) = PageData records page_help /\
      forallb keyed_by_scalar records = false) ->
  forall fuel,
    iter_raw_records config fuel client asof now = None /\
    page_no (progress (iter_raw_records_upto config fuel client asof now).1.1)
      = fuel /\
    failed_pages (progress (iter_raw_records_upto config fuel client asof now).1.1)
      = fuel.
Proof.
  intros Hbad fuel.
  assert (Hgo : forall n st,
    exists st' trace,
      fetch_pages config n client asof st = (st', trace, Continue) /\
      page_no (progress st') = (page_no (progress st) + n)%nat /\
      failed_pages (progress st') = (failed_pages (progress st) + n)%nat).
  { induction n as [|n IH]; intros st; simpl.
    { exists st, []. by rewrite !Nat.add_0_r. }
    destruct (Hbad (S (page_no (progress st))))
      as (records & page_help & Hres & Hkeys).
    assert (Hpage : exists st1 trace1,
      fetch_page config client asof st = (st1, trace1, Continue) /\
      page_no (progress st1) = S (page_no (progress st)) /\
      failed_pages (progress st1) = S (failed_pages (progress st))).
    { unfold fetch_page. cbn [page_no next_page]. rewrite Hres.
      destruct (process_records_raises
                  (_build_source_url config (S (page_no (progress st))))
                  asof records (next_page (progress st)) Hkeys)
        as (p1 & trace1 & m & Hrec).
      rewrite Hrec.
      apply process_records_frame in Hrec as (Hp & Hf & _).
      simpl in Hp, Hf.
      pose proof (handle_failure_frame (TypeError m) p1 0
        (requested_at (client (S (page_no (progress st))))))
        as (Hp' & Hf' & _ & _ & _ & _ & _ & Hb').
      destruct (handle_failure (TypeError m) p1 0 _) as [st1 c1].
      simpl in Hp', Hf', Hb'. subst c1.
      exists st1, trace1. split; [reflexivity|]. by rewrite Hp', Hf', Hp, Hf. }
    destruct Hpage as (st1 & trace1 & -> & Hp & Hf).
    destruct (IH st1) as (st2 & trace2 & -> & Hp2 & Hf2).
    eexists _, _. split; [reflexivity|]. rewrite Hp2, Hf2, Hp, Hf. lia. }
  unfold iter_raw_records, fetch_loop, iter_raw_records_upto.
  destruct (Hgo fuel (initial_state now)) as (st' & trace & -> & Hp & Hf).
  by simpl in *.
Qed.

End Engine.

(** *** Closed instances *)

Import Sample Examples.

Lemma yielded_provenance_witness :
  exists page records page_help,
    (1 <= page)%nat /\ (page <= page_no (progress final_repeated))%nat /\
    page_result (client_repeated page) = PageData records page_help /\
    listing_600004 ∈ records /\
    model_validate listing_600004 = Ok record_900901 /\
    0%Z = 0%Z /\
    url_page_1 = _build_source_url default_config page /\
    forall page', url_page_1 = _build_source_url default_config page' ->
                  page' = page.
Proof.
  apply (@yielded_provenance Sample.builtins default_config client_repeated
           0%Z 0%Q 1%nat final_repeated trace_repeated Break).
  - reflexivity.
  - apply elem_of_cons. right. apply elem_of_cons. by left.
Defined.

Lemma yielded_records_normalise_witness :
  exists recs,
    Forall2 (fun item rec =>
               Normalizer.normalize_sse_record item.1.1 item.1.2 item.2
                 "1" false = Ok rec /\
               Stock.source_url rec = item.1.2 /\ Stock.asof rec = item.2)
            (yielded trace_repeated) recs /\
    (fun rec => KStr (symbol rec)) <$> recs = yielded_keys trace_repeated /\
    NoDup (symbol <$> recs) /\
    Forall (fun rec =>
              KStr (symbol rec) ∈ unique_symbols (progress final_repeated))
           recs.
Proof.
  apply (@yielded_records_normalise Sample.builtins default_config
           client_repeated 0%Z 0%Q 1%nat final_repeated trace_repeated Break
           "1" false).
  reflexivity.
Defined.



Lemma unhashable_symbols_never_stop_witness :
  iter_raw_records default_config 501 client_nested 0%Z 0%Q = None /\
  page_no (progress
             (iter_raw_records_upto default_config 501 client_nested
                0%Z 0%Q).1.1) = 501%nat /\
  failed_pages (progress
                  (iter_raw_records_upto default_config 501 client_nested
                     0%Z 0%Q).1.1) = 501%nat.
Proof.
  apply (@unhashable_symbols_never_stop Sample.builtins default_config
           client_nested 0%Z 0%Q).
  intros page. exists [listing_nested], ∅. split; reflexivity.
Defined.

End FetcherFacts.
(** ** Further properties of the record models and of the command *)

Module StockFacts.
Import Stock StockSpec.

(** *** [RawSseRecord.model_validate] and [model_dump] *)

Lemma field_ok_spec (d : gmap string pyval) (k : string) :
  field_ok d k = true <-> str_or_null (d !! k).
Proof.
  unfold field_ok, str_or_none, str_or_null.
  destruct (d !! k) as [[]|]; simpl; split; try done; eauto;
    intros [|[|[s ?]]]; done.
Qed.

Lemma filter_nil_iff {A : Type} (f : A -> bool) (l : list A) :
  List.filter f l = [] <-> forall x, x ∈ l -> f x = false.
Proof.
  induction l as [|a l IH]; simpl.
  - split; [|done]. intros _ x Hx. by apply elem_of_nil in Hx.
  - destruct (f a) eqn:Hfa.
    + split; [done|]. intros Hall. rewrite Hall in Hfa; [done|by left].
    + rewrite IH. split.
      * intros Hall x [->|Hx]%elem_of_cons; auto.
      * intros Hall x Hx. apply Hall. by right.
Qed.

Lemma filter_sublist {A : Type} (f : A -> bool) (l : list A) :
  List.filter f l `sublist_of` l.
Proof.
  induction l as [|a l IH]; simpl; [done|].
  destruct (f a); by constructor.
Qed.

(** What an accepted dictionary gives. *)
Lemma model_validate_accepted (d : gmap string pyval) (r : RawSseRecord) :
  model_validate d = Ok r ->
  (forall k, k ∈ declared_fields -> str_or_null (d !! k)) /\
  Forall (fun kv => field_of d kv.1 = kv.2) (declared_values r) /\
  (forall k, extra r !! k = if is_declared k then None else d !! k).
Proof.
  unfold model_validate.
  destruct (List.filter _ declared_fields) as [|k0 bad] eqn:Hbad; [|done].
  intros [= <-]. split; [|split].
  - intros k Hk. apply field_ok_spec.
    apply (proj1 (filter_nil_iff _ _) Hbad) in Hk.
    by apply negb_false_iff in Hk.
  - unfold declared_values. cbn -[field_of]. repeat constructor.
  - intros k. cbn [extra]. destruct (is_declared k) eqn:Hk.
    + apply map_lookup_filter_None. right. intros v _. simpl. congruence.
    + destruct (d !! k) as [v|] eqn:Hd.
      * by apply map_lookup_filter_Some.
      * apply map_lookup_filter_None. by left.
Qed.

(** X21. model_validate accepts a dictionary exactly when each of the 21
    declared fields is absent, null or a string; it then returns the
    declared fields with these values and keeps every other entry of the
    dictionary as an extra one.  Otherwise it raises a validation error
    that names, in declaration order, exactly the declared fields that
    hold something else. *)
Theorem model_validate_outcomes (d : gmap string pyval) :
  match model_validate d with
  | Ok r =>
      (forall k, k ∈ declared_fields -> str_or_null (d !! k)) /\
      Forall (fun kv => field_of d kv.1 = kv.2) (declared_values r) /\
      (forall k, extra r !! k = if is_declared k then None else d !! k)
  | Raise e =>
      exists bad,
        e = ValidationError bad /\ bad <> [] /\
        bad `sublist_of` declared_fields /\
        forall k, k ∈ bad <->
                  k ∈ declared_fields /\ ~ str_or_null (d !! k)
  end.
Proof.
  destruct (model_validate d) as [r|e] eqn:Hv;
    [by apply model_validate_accepted|].
  revert Hv. unfold model_validate.
  destruct (List.filter _ declared_fields) as [|k0 bad] eqn:Hbad; [done|].
  intros [= <-].
  exists (k0 :: bad). split; [done|]. split; [done|]. rewrite <- Hbad.
  split; [apply filter_sublist|].
  intros k. rewrite list_elem_of_In, filter_In, <- list_elem_of_In.
  rewrite negb_true_iff, <- field_ok_spec.
  destruct (field_ok d k); intuition congruence.
Qed.

Lemma dump_field (r : RawSseRecord) (k : string) (o : option string) :
  model_dump r !! k = Some (opt_val o) ->
  field_ok (model_dump r) k = true /\ field_of (model_dump r) k = o.
Proof.
  intros Hget. unfold field_ok, field_of, str_or_none. rewrite Hget.
  by destruct o.
Qed.

Lemma dump_declared (r : RawSseRecord) :
  Forall (fun kv => model_dump r !! kv.1 = Some (opt_val kv.2))
         (declared_values r).
Proof.
  unfold declared_values, model_dump.
  repeat (constructor; [apply lookup_union_Some_l; reflexivity|]).
  constructor.
Qed.

Lemma declared_values_keys (r : RawSseRecord) :
  (declared_values r).*1 = declared_fields.
Proof. reflexivity. Qed.

Lemma dump_undeclared (r : RawSseRecord) (k : string) :
  is_declared k = false -> model_dump r !! k = extra r !! k.
Proof.
  intros Hk. unfold model_dump.
  apply lookup_union_r, not_elem_of_list_to_map_1.
  unfold is_declared in Hk. by apply bool_decide_eq_false in Hk.
Qed.

(** X22. A validated record dumps to a dictionary that holds every
    declared field, null where the input had none, and every other entry
    of the input unchanged; and validating the dump gives the record
    back. *)
Theorem model_dump_round_trip (d : gmap string pyval) (r : RawSseRecord) :
  model_validate d = Ok r ->
  model_validate (model_dump r) = Ok r /\
  (forall k, is_declared k = true ->
             model_dump r !! k = Some (opt_val (field_of d k))) /\
  (forall k, is_declared k = false -> model_dump r !! k = d !! k).
Proof.
  intros Hv.
  destruct (model_validate_accepted d r Hv) as (_ & Hvals & Hextra).
  pose proof (dump_declared r) as Hdump.
  split; [|split].
  - unfold model_validate.
    replace (List.filter (fun k => negb (field_ok (model_dump r) k))
               declared_fields) with (@nil string).
    2:{ symmetry. apply filter_nil_iff. intros k Hk.
        rewrite <- (declared_values_keys r) in Hk.
        apply list_elem_of_fmap in Hk as ([k' o] & -> & Hel).
        rewrite Forall_forall in Hdump. apply Hdump in Hel.
        apply dump_field in Hel as [-> _]. done. }
    assert (Hex : filter (fun kv : string * pyval => is_declared kv.1 = false)
                    (model_dump r) = extra r).
    { apply map_eq. intros k. destruct (is_declared k) eqn:Hk.
      - rewrite (Hextra k), Hk.
        apply map_lookup_filter_None. right. intros v _. simpl. congruence.
      - rewrite <- (dump_undeclared r k Hk).
        destruct (model_dump r !! k) as [v|] eqn:Hd.
        + by apply map_lookup_filter_Some.
        + apply map_lookup_filter_None. by left. }
    rewrite Hex.
    unfold declared_values in Hdump.
    repeat (apply Forall_cons in Hdump as [Hget Hdump];
            apply dump_field in Hget as [_ Hget]; cbn [fst snd] in Hget;
            rewrite Hget; clear Hget).
    by destruct r.
  - intros k Hk.
    unfold is_declared in Hk. apply bool_decide_eq_true in Hk.
    rewrite <- (declared_values_keys r) in Hk.
    apply list_elem_of_fmap in Hk as ([k' o] & -> & Hel).
    rewrite Forall_forall in Hdump, Hvals.
    rewrite (Hdump _ Hel), (Hvals _ Hel). done.
  - intros k Hk. rewrite (dump_undeclared r k Hk), (Hextra k), Hk. done.
Qed.

(** *** Closed instances *)

Import Examples.

Lemma model_dump_round_trip_witness :
  model_validate (model_dump record_600000) = Ok record_600000 /\
  (forall k, is_declared k = true ->
             model_dump record_600000 !! k
             = Some (opt_val (field_of listing_600000 k))) /\
  (forall k, is_declared k = false ->
             model_dump record_600000 !! k = listing_600000 !! k).
Proof.
  apply (model_dump_round_trip listing_600000 record_600000).
  reflexivity.
Defined.

End StockFacts.

(** ** Further properties of the command *)

Module PipelineFacts.
Import Config Stock Fetcher FetcherSpec Storage StorageSpec Cli CliSpec.







(** X24. The dictionary written to manifest.json is the dump of the
    manifest itself: it has the fourteen fields of the model as keys, none
    of them is cookies, so that the removal in to_safe_dict never applies,
    and the headers entry is written as the manifest holds it. *)
Theorem manifest_json_is_the_dump `{PyBuiltins} (m : Manifest.UniverseManifest) :
  write_manifest m = Manifest.model_dump_json m /\
  (write_manifest m).*1 = manifest_keys /\
  NoDup (write_manifest m).*1 /\
  ("cookies" ∉ (write_manifest m).*1) /\
  List.find (fun kv => String.eqb kv.1 "headers") (write_manifest m)
    = Some ("headers", Manifest.str_dict (Manifest.headers m)).
Proof.
  assert (Heq : write_manifest m = Manifest.model_dump_json m) by reflexivity.
  rewrite Heq.
  assert (Hkeys : (Manifest.model_dump_json m).*1 = manifest_keys)
    by reflexivity.
  rewrite Hkeys.
  split; [done|]. split; [done|]. split; [|split].
  - by apply (bool_decide_eq_true _).
  - by apply (proj1 (bool_decide_eq_false _)).
  - reflexivity.
Qed.

(** *** Closed instances *)

Import Sample Examples.


End PipelineFacts.
